(** * Performance command of the plugin CLI: [bin/plugin/commands/performance.js]

    A shallow embedding of the statistics helpers ([average], [median],
    [formatTime], [curateResults]), of the suite runner ([runTestSuite]) and of
    the orchestration ([setUpGitBranch], [runPerformanceTests]), followed by
    the properties of the specification that were checked against them.

    Modelling conventions.
    - A JavaScript number is an exact rational extended with [NaN], [Infinity]
      and [-Infinity]; arithmetic on the special values follows ECMAScript.
      Binary rounding of IEEE-754 doubles, overflow of finite values and the
      sign of zero are outside the model.
    - A plain JavaScript object is the ordered list of its own enumerable
      properties, in the order [OrdinaryOwnPropertyKeys] enumerates them:
      array-index names first, in ascending numeric order, then every other
      name in creation order.  A computed key of an object literal and a
      spread create own properties under any name; an assignment [o[ k ] = v]
      does too, except under the name [__proto__], which [Object.prototype]
      defines as an accessor.
    - A string is the sequence of its characters, one [ascii] per character
      for the ASCII texts that versions, branch names and commands are.
    - Every call to a collaborator that lives outside this file (shell, git,
      file system, prompt, logger) appends an event to the session trace and is
      answered by an oracle that sees the trace so far; a rejected promise or a
      thrown exception is the [inl] result of the session monad. *)

From Stdlib Require Import List String Ascii Bool Arith ZArith QArith Qcanon Qround.
From Stdlib Require Import DecimalString.
From Stdlib Require Import Lia Lqa Permutation Sorted.
Import ListNotations.

Local Open Scope Z_scope.

(** ** Numbers *)

Inductive number : Type :=
| NaN
| NegInfinity
| Fin (q : Qc)
| Infinity.

Definition Qc_of_Z (z : Z) : Qc := Q2Qc (inject_Z z).

Definition of_Z (z : Z) : number := Fin (Qc_of_Z z).

Definition Qc_half : Qc := Q2Qc (1 # 2).

Definition Qc_eqb (x y : Qc) : bool := Qeq_bool x y.

Definition Qc_ltb (x y : Qc) : bool :=
  match (x ?= y)%Qc with Lt => true | _ => false end.

Definition number_eqb (a b : number) : bool :=
  match a, b with
  | NaN, NaN | NegInfinity, NegInfinity | Infinity, Infinity => true
  | Fin x, Fin y => Qc_eqb x y
  | _, _ => false
  end.

(** [a + b] *)
Definition num_add (a b : number) : number :=
  match a, b with
  | NaN, _ | _, NaN => NaN
  | Infinity, NegInfinity | NegInfinity, Infinity => NaN
  | Infinity, _ | _, Infinity => Infinity
  | NegInfinity, _ | _, NegInfinity => NegInfinity
  | Fin x, Fin y => Fin (x + y)%Qc
  end.

(** [-a] *)
Definition num_neg (a : number) : number :=
  match a with
  | NaN => NaN
  | NegInfinity => Infinity
  | Infinity => NegInfinity
  | Fin x => Fin (- x)%Qc
  end.

(** [a - b] *)
Definition num_sub (a b : number) : number := num_add a (num_neg b).

(** The sign of a finite value, zero counting as positive zero. *)
Definition Qc_sign (x : Qc) : comparison := (x ?= 0)%Qc.

(** [a * b] *)
Definition num_mul (a b : number) : number :=
  match a, b with
  | NaN, _ | _, NaN => NaN
  | Fin x, Fin y => Fin (x * y)%Qc
  | Fin x, Infinity | Infinity, Fin x =>
      match Qc_sign x with Eq => NaN | Gt => Infinity | Lt => NegInfinity end
  | Fin x, NegInfinity | NegInfinity, Fin x =>
      match Qc_sign x with Eq => NaN | Gt => NegInfinity | Lt => Infinity end
  | Infinity, Infinity | NegInfinity, NegInfinity => Infinity
  | Infinity, NegInfinity | NegInfinity, Infinity => NegInfinity
  end.

(** [a / b] *)
Definition num_div (a b : number) : number :=
  match a, b with
  | NaN, _ | _, NaN => NaN
  | Fin x, Fin y =>
      if Qc_eqb y 0
      then match Qc_sign x with Eq => NaN | Gt => Infinity | Lt => NegInfinity end
      else Fin (x / y)%Qc
  | Fin _, (Infinity | NegInfinity) => Fin 0%Qc
  | Infinity, Fin y =>
      match Qc_sign y with Lt => NegInfinity | _ => Infinity end
  | NegInfinity, Fin y =>
      match Qc_sign y with Lt => Infinity | _ => NegInfinity end
  | (Infinity | NegInfinity), (Infinity | NegInfinity) => NaN
  end.

(** [a < b] *)
Definition num_ltb (a b : number) : bool :=
  match a, b with
  | NaN, _ | _, NaN => false
  | NegInfinity, NegInfinity => false
  | NegInfinity, _ => true
  | _, NegInfinity => false
  | Infinity, _ => false
  | Fin _, Infinity => true
  | Fin x, Fin y => Qc_ltb x y
  end.

(** The global [isFinite]. *)
Definition isFinite (a : number) : bool :=
  match a with Fin _ => true | _ => false end.

(** [Math.pow( b, e )] for a natural exponent. *)
Fixpoint Math_pow (b : number) (e : nat) : number :=
  match e with
  | O => of_Z 1
  | S e' => num_mul b (Math_pow b e')
  end.

(** [Math.round]: the closest integer, a tie going towards [+Infinity]. *)
Definition Math_round (a : number) : number :=
  match a with
  | Fin x => of_Z (Qfloor (x + Qc_half)%Qc)
  | _ => a
  end.

(** [Math.min( ...args )]: starts from [+Infinity]; [NaN] is absorbing. *)
Definition min2 (lowest x : number) : number :=
  match lowest, x with
  | NaN, _ | _, NaN => NaN
  | _, _ => if num_ltb x lowest then x else lowest
  end.

Definition Math_min (args : list number) : number :=
  fold_left min2 args Infinity.

(** [Math.max( ...args )]: starts from [-Infinity]; [NaN] is absorbing. *)
Definition max2 (highest x : number) : number :=
  match highest, x with
  | NaN, _ | _, NaN => NaN
  | _, _ => if num_ltb highest x then x else highest
  end.

Definition Math_max (args : list number) : number :=
  fold_left max2 args NegInfinity.

(** [array.length] as a number. *)
Definition length_of {A : Type} (array : list A) : Z := Z.of_nat (List.length array).

(** [array[ i ]] read as a number: a hole or an index out of range gives
    [undefined], which arithmetic turns into [NaN]. *)
Definition at_index (array : list number) (i : Z) : number :=
  if i <? 0 then NaN else nth (Z.to_nat i) array NaN.

(** ** [Array.prototype.sort] with a comparison function

    ECMAScript fixes the result for a consistent comparison function: the
    sorted permutation, equal elements keeping their order.  The model is a
    stable insertion sort; a [NaN] returned by the comparison function counts
    as zero, as [SortCompare] prescribes. *)
Section Sort.

Variable comparefn : number -> number -> number.

(** [SortCompare( a, b ) > 0] *)
Definition sorts_after (a b : number) : bool :=
  num_ltb (of_Z 0) (comparefn a b).

Fixpoint insert (x : number) (sorted : list number) : list number :=
  match sorted with
  | [] => [x]
  | y :: rest => if sorts_after x y then y :: insert x rest else x :: sorted
  end.

Definition sort (array : list number) : list number :=
  fold_right insert [] array.

End Sort.

(** ** The statistics helpers *)

(** [array.reduce( ( a, b ) => a + b, 0 ) / array.length] *)
Definition average (array : list number) : number :=
  num_div (fold_left (fun a b => num_add a b) array (of_Z 0))
          (of_Z (length_of array)).

Definition median (array : list number) : number :=
  let mid := length_of array / 2 in
  let numbers := sort (fun a b => num_sub a b) array in
  if negb (length_of array mod 2 =? 0)
  then at_index numbers mid
  else num_div (num_add (at_index numbers (mid - 1)) (at_index numbers mid))
               (of_Z 2).

Definition formatTime (n : number) : number :=
  let factor := Math_pow (of_Z 10) 2 in
  num_div (Math_round (num_mul n factor)) factor.


(** ** Raw and curated results *)

(** [WPRawPerformanceResults] *)
Module Raw.
Record t : Type := make {
  load : list number;
  type : list number;
  focus : list number;
  inserterOpen : list number;
  inserterHover : list number
}.
End Raw.

Definition WPRawPerformanceResults : Type := Raw.t.

(** An object with the thirteen keys of [WPPerformanceResults], in the order
    in which the object literals of this file write them. *)
Record perf (A : Type) : Type := mkPerf {
  load : A;
  type : A;
  minType : A;
  maxType : A;
  focus : A;
  minFocus : A;
  maxFocus : A;
  inserterOpen : A;
  minInserterOpen : A;
  maxInserterOpen : A;
  inserterHover : A;
  minInserterHover : A;
  maxInserterHover : A
}.

Arguments mkPerf {A}.
Arguments load {A}.
Arguments type {A}.
Arguments minType {A}.
Arguments maxType {A}.
Arguments focus {A}.
Arguments minFocus {A}.
Arguments maxFocus {A}.
Arguments inserterOpen {A}.
Arguments minInserterOpen {A}.
Arguments maxInserterOpen {A}.
Arguments inserterHover {A}.
Arguments minInserterHover {A}.
Arguments maxInserterHover {A}.

Definition WPPerformanceResults : Type := perf number.

(** [Object.entries] of such an object. *)
Definition perf_entries {A : Type} (o : perf A) : list (string * A) :=
  [ ("load", load o);
    ("type", type o);
    ("minType", minType o);
    ("maxType", maxType o);
    ("focus", focus o);
    ("minFocus", minFocus o);
    ("maxFocus", maxFocus o);
    ("inserterOpen", inserterOpen o);
    ("minInserterOpen", minInserterOpen o);
    ("maxInserterOpen", maxInserterOpen o);
    ("inserterHover", inserterHover o);
    ("minInserterHover", minInserterHover o);
    ("maxInserterHover", maxInserterHover o) ]%string.

(** The thirteen metric keys. *)
Definition metric_keys : list string :=
  [ "load"; "type"; "minType"; "maxType"; "focus"; "minFocus"; "maxFocus";
    "inserterOpen"; "minInserterOpen"; "maxInserterOpen";
    "inserterHover"; "minInserterHover"; "maxInserterHover" ]%string.

(** lodash's [mapValues( object, iteratee )] on such an object. *)
Definition mapValues {A B : Type} (o : perf A) (iteratee : A -> B) : perf B :=
  {| load := iteratee (load o);
     type := iteratee (type o);
     minType := iteratee (minType o);
     maxType := iteratee (maxType o);
     focus := iteratee (focus o);
     minFocus := iteratee (minFocus o);
     maxFocus := iteratee (maxFocus o);
     inserterOpen := iteratee (inserterOpen o);
     minInserterOpen := iteratee (minInserterOpen o);
     maxInserterOpen := iteratee (maxInserterOpen o);
     inserterHover := iteratee (inserterHover o);
     minInserterHover := iteratee (minInserterHover o);
     maxInserterHover := iteratee (maxInserterHover o) |}.

Definition curateResults (results : WPRawPerformanceResults) : WPPerformanceResults :=
  {| load := average (Raw.load results);
     type := average (Raw.type results);
     minType := Math_min (Raw.type results);
     maxType := Math_max (Raw.type results);
     focus := average (Raw.focus results);
     minFocus := Math_min (Raw.focus results);
     maxFocus := Math_max (Raw.focus results);
     inserterOpen := average (Raw.inserterOpen results);
     minInserterOpen := Math_min (Raw.inserterOpen results);
     maxInserterOpen := Math_max (Raw.inserterOpen results);
     inserterHover := average (Raw.inserterHover results);
     minInserterHover := Math_min (Raw.inserterHover results);
     maxInserterHover := Math_max (Raw.inserterHover results) |}.

(** The object literal of [runTestSuite] that gathers, key by key, the values
    of the curated results, and the two [mapValues] that follow it. *)
Definition suiteMedians (results : list WPPerformanceResults) : WPPerformanceResults :=
  let medians :=
    mapValues
      {| load := map (fun r => load r) results;
         type := map (fun r => type r) results;
         minType := map (fun r => minType r) results;
         maxType := map (fun r => maxType r) results;
         focus := map (fun r => focus r) results;
         minFocus := map (fun r => minFocus r) results;
         maxFocus := map (fun r => maxFocus r) results;
         inserterOpen := map (fun r => inserterOpen r) results;
         minInserterOpen := map (fun r => minInserterOpen r) results;
         maxInserterOpen := map (fun r => maxInserterOpen r) results;
         inserterHover := map (fun r => inserterHover r) results;
         minInserterHover := map (fun r => minInserterHover r) results;
         maxInserterHover := map (fun r => maxInserterHover r) results |}
      median in
  mapValues medians formatTime.

(** ** Plain objects used as maps *)

Local Open Scope string_scope.

Definition obj (V : Type) : Type := list (string * V).

Definition is_digit (c : ascii) : bool :=
  let n := nat_of_ascii c in ((48 <=? n) && (n <=? 57))%nat.

Fixpoint digits_value (s : string) (acc : N) : option N :=
  match s with
  | EmptyString => Some acc
  | String c s' =>
      if is_digit c
      then digits_value s' (10 * acc + (N_of_ascii c - 48))%N
      else None
  end.

(** A property name is an array index when it is the canonical decimal
    spelling of an integer between 0 and 2^32 - 2. *)
Definition array_index (name : string) : option N :=
  match name with
  | EmptyString => None
  | String c rest =>
      if (Ascii.eqb c "0" && negb (String.eqb rest ""))%bool then None
      else match digits_value name 0 with
           | Some n => if (n <=? 4294967294)%N then Some n else None
           | None => None
           end
  end.

Section Objects.

Context {V : Type}.

(** [Object.keys( o )] *)
Definition obj_keys (o : obj V) : list string := map fst o.

(** [o[ key ]] for a key that [Object.prototype] does not define. *)
Fixpoint obj_get (key : string) (o : obj V) : option V :=
  match o with
  | [] => None
  | (k, v) :: rest => if String.eqb k key then Some v else obj_get key rest
  end.

Definition obj_has (key : string) (o : obj V) : bool :=
  match obj_get key o with Some _ => true | None => false end.

(** Overwrites the value of an existing property, which keeps its place. *)
Fixpoint obj_update (key : string) (v : V) (o : obj V) : obj V :=
  match o with
  | [] => []
  | (k, v') :: rest =>
      if String.eqb k key then (k, v) :: rest
      else (k, v') :: obj_update key v rest
  end.

(** Creates an array-index property: it goes after the smaller indices and
    before the larger ones and every other name. *)
Fixpoint obj_insert_index (n : N) (key : string) (v : V) (o : obj V) : obj V :=
  match o with
  | [] => [(key, v)]
  | (k, v') :: rest =>
      match array_index k with
      | Some m =>
          if (m <? n)%N then (k, v') :: obj_insert_index n key v rest
          else (key, v) :: o
      | None => (key, v) :: o
      end
  end.

(** [CreateDataProperty]: what a computed key of an object literal does. *)
Definition obj_define (key : string) (v : V) (o : obj V) : obj V :=
  if obj_has key o then obj_update key v o
  else match array_index key with
       | Some n => obj_insert_index n key v o
       | None => (o ++ [(key, v)])%list
       end.

(** [{ ...o }] where [o] may be [undefined]: a fresh object with the same
    properties in the same order. *)
Definition spread (o : option (obj V)) : obj V :=
  match o with
  | Some properties => properties
  | None => []
  end.

(** [o[ key ] = v] for a primitive value [v]: the name [__proto__] reaches
    the setter of [Object.prototype], which ignores a value that is neither
    an object nor [null]; every other name creates or overwrites an own
    property. *)
Definition obj_assign_primitive (key : string) (v : V) (o : obj V) : obj V :=
  if String.eqb key "__proto__" then o else obj_define key v o.

End Objects.

(** ** The version pattern [/^(\d+\.\d+).0/]

    A backtracking matcher for this one pattern.  [digits_then] is the greedy
    [\d+]: it takes as many digits as it can and gives digits back, one at a
    time, while the rest of the pattern fails.  The dot of the pattern that is
    not escaped accepts every character but a line terminator. *)

Definition is_line_terminator (c : ascii) : bool :=
  (Ascii.eqb c "010" || Ascii.eqb c "013")%bool.

Fixpoint digits_then {R : Type} (input taken : string)
    (rest_of_pattern : string -> string -> option R) : option R :=
  match input with
  | String c input' =>
      if is_digit c then
        match digits_then input' (taken ++ String c "") rest_of_pattern with
        | Some r => Some r
        | None => rest_of_pattern (taken ++ String c "") input'
        end
      else None
  | EmptyString => None
  end.

(** The first capture group and the text after the match, when the pattern
    matches at the start of the input. *)
Definition match_version (input : string) : option (string * string) :=
  digits_then input "" (fun major after_major =>
    match after_major with
    | String "." after_dot =>
        digits_then after_dot "" (fun minor after_minor =>
          match after_minor with
          | String c (String "0" after_match) =>
              if is_line_terminator c then None
              else Some (major ++ "." ++ minor, after_match)
          | _ => None
          end)
    | _ => None
    end).

(** [wpVersion.replace( /^(\d+\.\d+).0/, '$1' )] *)
Definition zipVersion_of (wpVersion : string) : string :=
  match match_version wpVersion with
  | Some (group1, after_match) => group1 ++ after_match
  | None => wpVersion
  end.

(** ** Values handed to [JSON.stringify] *)

#[warnings="-register-all"]
Inductive json : Type :=
| JNull
| JNumber (n : number)
| JString (s : string)
| JObject (properties : list (string * json)).

(** [JSON.stringify] writes a number that is not finite as [null]. *)
Definition json_of_number (n : number) : json :=
  if isFinite n then JNumber n else JNull.

Definition json_of_perf (r : WPPerformanceResults) : json :=
  JObject (map (fun kv => (fst kv, json_of_number (snd kv))) (perf_entries r)).

Definition json_of_suite (by_branch : obj WPPerformanceResults) : json :=
  JObject (map (fun kv => (fst kv, json_of_perf (snd kv))) by_branch).

(** ** The session: collaborators, trace and failures *)

Inductive event : Type :=
| Log (args : list string)
| AskForConfirmation (message : string)
| GitClone (url : string)
| GitCheckoutRemoteBranch (directory branch : string)
| GitDiscardLocalChanges (directory : string)
| GetRandomTemporaryPath
| RunShellScript (script : string) (cwd : option string)
| ReadJSONFile (fileName : string)
| WriteFileSync (fileName : string) (data : json)
| ConsoleTable (data : obj (obj string)).

Inductive exn : Type :=
| Rejected (call : event)
| TypeError (message : string).

(** What the collaborators answer, given the calls made so far.  [None] and
    [false] stand for a rejected promise or a thrown exception. *)
Record collaborators : Type := {
  askForConfirmation_ok : list event -> string -> bool;
  git_clone_result : list event -> string -> option string;
  git_checkoutRemoteBranch_ok : list event -> string -> string -> bool;
  git_discardLocalChanges_ok : list event -> string -> bool;
  getRandomTemporaryPath_result : list event -> string;
  runShellScript_ok : list event -> string -> option string -> bool;
  readJSONFile_results : list event -> string -> option WPRawPerformanceResults;
  readJSONFile_config : list event -> string -> option (obj json);
  writeFileSync_ok : list event -> string -> json -> bool;
  path_join : string -> string -> string;
  path_resolve : string -> string -> string -> string;
  dirname : string;
  gitRepositoryURL : string;
  formats_title : string -> string;
  formats_success : string -> string;
  number_toString : number -> string
}.

(** The trace of calls and the variable [results] of [runPerformanceTests]. *)
Record session : Type := mkSession {
  trace : list event;
  results : obj (obj WPPerformanceResults)
}.

Definition M (A : Type) : Type := session -> session * (exn + A).

Definition ret {A : Type} (a : A) : M A := fun s => (s, inr a).

Definition throw {A : Type} (e : exn) : M A := fun s => (s, inl e).

Definition bind {A B : Type} (m : M A) (k : A -> M B) : M B :=
  fun s =>
    match m s with
    | (s', inr a) => k a s'
    | (s', inl e) => (s', inl e)
    end.

Declare Scope session_scope.
Delimit Scope session_scope with session.

Notation "x <- m ;; k" := (bind m (fun x => k))
  (at level 61, m at next level, right associativity) : session_scope.
Notation "m ;; k" := (bind m (fun _ => k))
  (at level 61, right associativity) : session_scope.

Local Open Scope session_scope.

(** A call to a collaborator: the call is recorded, then it settles. *)
Definition record_call (e : event) (s : session) : session :=
  {| trace := (trace s ++ [e])%list; results := results s |}.

Definition call {A : Type} (e : event) (answer : list event -> option A) : M A :=
  fun s =>
    match answer (trace s) with
    | Some a => (record_call e s, inr a)
    | None => (record_call e s, inl (Rejected e))
    end.

Definition when_ok (ok : bool) : option unit := if ok then Some tt else None.

Definition get_results : M (obj (obj WPPerformanceResults)) :=
  fun s => (s, inr (results s)).

Definition set_results (value : obj (obj WPPerformanceResults)) : M unit :=
  fun s => ({| trace := trace s; results := value |}, inr tt).

(** [for ( const x of items ) body] *)
Fixpoint for_of {A : Type} (items : list A) (body : A -> M unit) : M unit :=
  match items with
  | [] => ret tt
  | x :: rest => body x ;; for_of rest body
  end.

(** [WPPerformanceCommandOptions] *)
Record WPPerformanceCommandOptions : Type := {
  ci : option bool;
  testsBranch : option string;
  wpVersion : option string
}.

Definition truthy_bool (o : option bool) : bool :=
  match o with Some b => b | None => false end.

Definition truthy_string (o : option string) : bool :=
  match o with Some s => negb (String.eqb s "") | None => false end.

Definition string_or_empty (o : option string) : string :=
  match o with Some s => s | None => "" end.

Definition LF : string := String "010" "".

(** The object literal of the inner loop of [runPerformanceTests]:
    [{ ...results, [ testSuite ]: { ...results[ testSuite ], [ branch ]: suiteResult } }] *)
Definition withSuiteResult (current : obj (obj WPPerformanceResults))
    (testSuite branch : string) (suiteResult : WPPerformanceResults)
    : obj (obj WPPerformanceResults) :=
  obj_define testSuite
    (obj_define branch suiteResult (spread (obj_get testSuite current)))
    (spread (Some current)).

(** ** The program *)

Section Program.

Variable w : collaborators.

Definition log (args : list string) : M unit :=
  call (Log args) (fun _ => Some tt).

Definition askForConfirmation (message : string) : M unit :=
  call (AskForConfirmation message)
       (fun t => when_ok (askForConfirmation_ok w t message)).

Definition git_clone (url : string) : M string :=
  call (GitClone url) (fun t => git_clone_result w t url).

Definition git_checkoutRemoteBranch (directory branch : string) : M unit :=
  call (GitCheckoutRemoteBranch directory branch)
       (fun t => when_ok (git_checkoutRemoteBranch_ok w t directory branch)).

Definition git_discardLocalChanges (directory : string) : M unit :=
  call (GitDiscardLocalChanges directory)
       (fun t => when_ok (git_discardLocalChanges_ok w t directory)).

Definition getRandomTemporaryPath : M string :=
  call GetRandomTemporaryPath
       (fun t => Some (getRandomTemporaryPath_result w t)).

Definition runShellScript (script : string) (cwd : option string) : M unit :=
  call (RunShellScript script cwd)
       (fun t => when_ok (runShellScript_ok w t script cwd)).

(** [readJSONFile] where the caller reads raw performance results. *)
Definition readJSONFile_raw (fileName : string) : M WPRawPerformanceResults :=
  call (ReadJSONFile fileName) (fun t => readJSONFile_results w t fileName).

(** [readJSONFile] where the caller reads the [.wp-env.json] object. *)
Definition readJSONFile_conf (fileName : string) : M (obj json) :=
  call (ReadJSONFile fileName) (fun t => readJSONFile_config w t fileName).

Definition writeFileSync (fileName : string) (data : json) : M unit :=
  call (WriteFileSync fileName data)
       (fun t => when_ok (writeFileSync_ok w t fileName data)).

Definition console_table (data : obj (obj string)) : M unit :=
  call (ConsoleTable data) (fun _ => Some tt).

Definition buildScript : string :=
  "rm -rf node_modules packages/*/node_modules && npm install && npm run build".

Definition setUpGitBranch (branch environmentDirectory : string) : M unit :=
  git_discardLocalChanges environmentDirectory ;;
  log [">> Fetching the " ++ formats_success w branch ++ " branch"] ;;
  git_checkoutRemoteBranch environmentDirectory branch ;;
  log [">> Building the " ++ formats_success w branch ++ " branch"] ;;
  runShellScript buildScript (Some environmentDirectory).

Definition testScript (testSuite : string) : string :=
  "npm run test-performance -- packages/e2e-tests/specs/performance/"
    ++ testSuite ++ ".test.js".

Definition resultsFile (testSuite performanceTestDirectory : string) : string :=
  path_join w performanceTestDirectory
    ("packages/e2e-tests/specs/performance/" ++ testSuite ++ ".test.results.json").

(** The body of the [for] loop of [runTestSuite], run [remaining] more
    times; [results] is the array the loop pushes to. *)
Fixpoint testRuns (testSuite performanceTestDirectory : string)
    (remaining : nat) (results : list WPPerformanceResults)
    : M (list WPPerformanceResults) :=
  match remaining with
  | O => ret results
  | S remaining' =>
      runShellScript (testScript testSuite) (Some performanceTestDirectory) ;;
      rawResults <- readJSONFile_raw (resultsFile testSuite performanceTestDirectory) ;;
      testRuns testSuite performanceTestDirectory remaining'
               (results ++ [curateResults rawResults])%list
  end.

Definition runTestSuite (testSuite performanceTestDirectory : string)
    : M WPPerformanceResults :=
  results <- testRuns testSuite performanceTestDirectory 3 [] ;;
  ret (suiteMedians results).

Definition testSuites : list string := ["post-editor"; "site-editor"].

Definition welcome : string :=
  "Welcome! This tool runs the performance tests on multiple branches and displays a comparison table." ++ LF ++
  "In order to run the tests, the tool is going to load a WordPress environment on 8888 and 8889 ports." ++ LF ++
  "Make sure these ports are not used before continuing." ++ LF.

(** The steps of [runPerformanceTests] before the branch loop; they give
    [performanceTestDirectory] and [environmentDirectory]. *)
Definition prepareEnvironment (options : WPPerformanceCommandOptions)
    : M (string * string) :=
  log [formats_title w (LF ++ "💃 Performance Tests 🕺" ++ LF ++ LF); welcome] ;;
  (if negb (truthy_bool (ci options))
   then askForConfirmation "Ready to go? "
   else ret tt) ;;
  log [">> Cloning the repository"] ;;
  performanceTestDirectory <- git_clone (gitRepositoryURL w) ;;
  (if truthy_string (testsBranch options)
   then
     log [">> Fetching the "
            ++ formats_success w (string_or_empty (testsBranch options))
            ++ " branch"] ;;
     git_checkoutRemoteBranch performanceTestDirectory
                              (string_or_empty (testsBranch options))
   else ret tt) ;;
  environmentDirectory <- getRandomTemporaryPath ;;
  log [">> Perf Tests Directory : " ++ formats_success w performanceTestDirectory] ;;
  log [">> Environment Directory : " ++ formats_success w environmentDirectory] ;;
  log [">> Installing dependencies"] ;;
  runShellScript "npm install && npm run build:packages"
                 (Some performanceTestDirectory) ;;
  runShellScript ("cp -R " ++ performanceTestDirectory ++ " " ++ environmentDirectory)
                 None ;;
  log [">> Starting the WordPress environment"] ;;
  (if truthy_string (wpVersion options)
   then
     let zipVersion := zipVersion_of (string_or_empty (wpVersion options)) in
     let zipUrl := "https://wordpress.org/wordpress-" ++ zipVersion ++ ".zip" in
     log ["Using WordPress version " ++ zipVersion] ;;
     let confPath := environmentDirectory ++ "/.wp-env.json" in
     json <- readJSONFile_conf confPath ;;
     let conf := obj_define "core" (JString zipUrl) (spread (Some json)) in
     writeFileSync confPath (JObject conf)
   else ret tt) ;;
  runShellScript "npm run wp-env start" (Some environmentDirectory) ;;
  ret (performanceTestDirectory, environmentDirectory).

(** The body of the inner loop: one suite on the branch that is set up. *)
Definition recordSuite (branch performanceTestDirectory testSuite : string)
    : M unit :=
  current <- get_results ;;
  suiteResult <- runTestSuite testSuite performanceTestDirectory ;;
  set_results (withSuiteResult current testSuite branch suiteResult).

(** The body of the outer loop. *)
Definition branchCycle (performanceTestDirectory environmentDirectory branch : string)
    : M unit :=
  setUpGitBranch branch environmentDirectory ;;
  log [">> Running the test on the " ++ formats_success w branch ++ " branch"] ;;
  for_of testSuites (recordSuite branch performanceTestDirectory).

Definition branchLoop (branches : list string)
    (performanceTestDirectory environmentDirectory : string) : M unit :=
  set_results [] ;;
  for_of branches (branchCycle performanceTestDirectory environmentDirectory).

Definition stopScript : string := "npm run wp-env stop".

Definition stopEnvironment (environmentDirectory : string) : M unit :=
  log [">> Stopping the WordPress environment"] ;;
  runShellScript stopScript (Some environmentDirectory).

(** The [reduce] that transposes the results of one suite. *)
Definition invertEntry (key : string) (acc : obj (obj string))
    (entry_value : string * number) : obj (obj string) :=
  let entry := fst entry_value in
  let acc := if obj_has entry acc then acc else obj_define entry [] acc in
  if isFinite (snd entry_value)
  then match obj_get entry acc with
       | Some row =>
           obj_update entry
             (obj_assign_primitive key
                (number_toString w (snd entry_value) ++ " ms") row)
             acc
       | None => acc
       end
  else acc.

Definition invert (by_branch : obj WPPerformanceResults) : obj (obj string) :=
  fold_left
    (fun acc key_val =>
       fold_left (invertEntry (fst key_val)) (perf_entries (snd key_val)) acc)
    by_branch [].

Definition reportSuite (testSuite : string) : M unit :=
  log [LF ++ ">> " ++ testSuite ++ LF] ;;
  current <- get_results ;;
  match obj_get testSuite current with
  | None => throw (TypeError "Cannot convert undefined or null to object")
  | Some by_branch =>
      console_table (invert by_branch) ;;
      let resultsFilename := testSuite ++ "-performance-results.json" in
      writeFileSync (path_resolve w (dirname w) "../../../" resultsFilename)
                    (json_of_suite by_branch)
  end.

Definition report : M unit :=
  log [LF ++ ">> 🎉 Results." ++ LF] ;;
  for_of testSuites reportSuite.

Definition runPerformanceTests (branches : list string)
    (options : WPPerformanceCommandOptions) : M unit :=
  let branches :=
    if (List.length branches =? 0)%nat then ["trunk"] else branches in
  directories <- prepareEnvironment options ;;
  let performanceTestDirectory := fst directories in
  let environmentDirectory := snd directories in
  branchLoop branches performanceTestDirectory environmentDirectory ;;
  stopEnvironment environmentDirectory ;;
  report.

End Program.

(** ** A sample of collaborators

    Every call succeeds, except the checkout of the branch [unavailable]; each
    results file holds [sample_raw], whose [inserterOpen] sequence is empty. *)

Definition sample_raw : WPRawPerformanceResults :=
  Raw.make (map of_Z [10; 20]) (map of_Z [10; 20; 30]) (map of_Z [1]) []
           (map of_Z [3; 4]).

(** The decimal spelling of a value with at most two decimals. *)
Definition sample_toString (n : number) : string :=
  match n with
  | NaN => "NaN"
  | Infinity => "Infinity"
  | NegInfinity => "-Infinity"
  | Fin q =>
      let hundredths := Qfloor (q * Qc_of_Z 100)%Qc in
      let digits (z : Z) := NilEmpty.string_of_uint (N.to_uint (Z.to_N z)) in
      let whole := (Z.abs hundredths / 100)%Z in
      let cents := (Z.abs hundredths mod 100)%Z in
      (if (hundredths <? 0)%Z then "-" else "")
        ++ (if (whole =? 0)%Z then "0" else digits whole)
        ++ (if (cents =? 0)%Z then ""
            else if (cents mod 10 =? 0)%Z then "." ++ digits (cents / 10)%Z
            else if (cents <? 10)%Z then ".0" ++ digits cents
            else "." ++ digits cents)
  end.

Definition sample_collaborators (unavailable : string) : collaborators :=
  {| askForConfirmation_ok := fun _ _ => true;
     git_clone_result := fun _ _ => Some "/tmp/perf";
     git_checkoutRemoteBranch_ok :=
       fun _ _ branch => negb (String.eqb branch unavailable);
     git_discardLocalChanges_ok := fun _ _ => true;
     getRandomTemporaryPath_result := fun _ => "/tmp/env";
     runShellScript_ok := fun _ _ _ => true;
     readJSONFile_results := fun _ _ => Some sample_raw;
     readJSONFile_config := fun _ _ => Some [("port", JNumber (of_Z 8888))];
     writeFileSync_ok := fun _ _ _ => true;
     path_join := fun directory file => directory ++ "/" ++ file;
     path_resolve := fun from up file => from ++ "/" ++ up ++ file;
     dirname := "/gutenberg/bin/plugin/commands";
     gitRepositoryURL := "https://github.com/WordPress/gutenberg.git";
     formats_title := fun text => text;
     formats_success := fun text => text;
     number_toString := sample_toString |}.

Definition sample_options (version : option string) : WPPerformanceCommandOptions :=
  {| ci := Some true; testsBranch := None; wpVersion := version |}.

Definition fresh_session : session := {| trace := []; results := [] |}.

(** ** Notions used by the statements *)

(** The sum and the arithmetic mean of finitely many rationals. *)
Definition Qc_sum (qs : list Qc) : Qc := fold_right Qcplus 0%Qc qs.

Definition Qc_mean (qs : list Qc) : Qc :=
  (Qc_sum qs / Qc_of_Z (Z.of_nat (List.length qs)))%Qc.

(** The order of the numbers other than [NaN]. *)
Definition num_le (a b : number) : Prop :=
  match a, b with
  | NaN, _ | _, NaN => False
  | NegInfinity, _ => True
  | _, Infinity => True
  | Fin x, Fin y => (x <= y)%Qc
  | _, _ => False
  end.

Definition not_NaN (a : number) : Prop := a <> NaN.

(** [m] is the least, respectively the greatest, element of [l]. *)
Definition is_least (l : list number) (m : number) : Prop :=
  In m l /\ forall x, In x l -> num_le m x.

Definition is_greatest (l : list number) (m : number) : Prop :=
  In m l /\ forall x, In x l -> num_le x m.

(** [mean] is the arithmetic mean of the sequence [l]: the mean of its
    values when they are finite, and [NaN] when one of them is [NaN]. *)
Definition mean_of (l : list number) (mean : number) : Prop :=
  (forall qs, l = map Fin qs -> mean = Fin (Qc_mean qs))
  /\ (In NaN l -> mean = NaN).

(** [mean], [lowest] and [highest] are the mean, the minimum and the maximum
    of the sequence [l]; the minimum and the maximum are [NaN] when an
    element is [NaN]. *)
Definition summarises (l : list number) (mean lowest highest : number) : Prop :=
  mean_of l mean
  /\ (Forall not_NaN l -> is_least l lowest /\ is_greatest l highest)
  /\ (In NaN l -> lowest = NaN /\ highest = NaN).

(** A raw sample of finite observations. *)
Definition raw_sample (ld ty fo io ih : list Qc) : WPRawPerformanceResults :=
  Raw.make (map Fin ld) (map Fin ty) (map Fin fo) (map Fin io) (map Fin ih).

(** [o[ key ]] for an object with the thirteen metric keys. *)
Definition perf_get {A : Type} (key : string) (o : perf A) : option A :=
  obj_get key (perf_entries o).

(** The calls of one repeat of [runTestSuite]. *)
Definition testRun_events (w : collaborators)
    (testSuite performanceTestDirectory : string) : list event :=
  [ RunShellScript (testScript testSuite) (Some performanceTestDirectory);
    ReadJSONFile (resultsFile w testSuite performanceTestDirectory) ].

(** After the calls [before], the test run of [testSuite] succeeds and the
    results file then holds [raw]. *)
Definition testRun_gives (w : collaborators)
    (testSuite performanceTestDirectory : string)
    (before : list event) (raw : WPRawPerformanceResults) : Prop :=
  runShellScript_ok w before (testScript testSuite)
                    (Some performanceTestDirectory) = true
  /\ readJSONFile_results w
       (before ++ [RunShellScript (testScript testSuite)
                                  (Some performanceTestDirectory)])%list
       (resultsFile w testSuite performanceTestDirectory) = Some raw.

(** The branch list after the default of [runPerformanceTests]. *)
Definition branches_or_trunk (branches : list string) : list string :=
  if (List.length branches =? 0)%nat then ["trunk"] else branches.

(** The state in which the branch loop starts: [let results = {}]. *)
Definition with_empty_results (s : session) : session :=
  {| trace := trace s; results := [] |}.

(** The call that stops the environment, and the display of a table. *)
Definition is_stop (e : event) : bool :=
  match e with
  | RunShellScript script _ => String.eqb script stopScript
  | _ => false
  end.

Definition is_table (e : event) : bool :=
  match e with
  | ConsoleTable _ => true
  | _ => false
  end.

Definition calm (e : event) : Prop := is_stop e = false /\ is_table e = false.

(** A computation that only makes calls satisfying [P]. *)
Definition appends {A : Type} (P : event -> Prop) (m : M A) : Prop :=
  forall s, exists evs,
    trace (fst (m s)) = (trace s ++ evs)%list /\ Forall P evs.

(** A computation that leaves the variable [results] alone. *)
Definition keeps_results {A : Type} (m : M A) : Prop :=
  forall s, results (fst (m s)) = results s.

(** [results[ testSuite ][ branch ]] *)
Definition table_get {V : Type} (row column : string) (table : obj (obj V))
    : option V :=
  match obj_get row table with
  | Some cells => obj_get column cells
  | None => None
  end.

(** The order in which an object enumerates keys created in the order
    [names]: [Object.keys] after defining them one by one. *)
Definition key_has (key : string) (keys : list string) : bool :=
  existsb (String.eqb key) keys.

Fixpoint key_insert_index (n : N) (key : string) (keys : list string) : list string :=
  match keys with
  | [] => [key]
  | k :: rest =>
      match array_index k with
      | Some m =>
          if (m <? n)%N then k :: key_insert_index n key rest
          else key :: keys
      | None => key :: keys
      end
  end.

Definition key_define (key : string) (keys : list string) : list string :=
  if key_has key keys then keys
  else match array_index key with
       | Some n => key_insert_index n key keys
       | None => (keys ++ [key])%list
       end.

Definition js_key_order (names : list string) : list string :=
  fold_left (fun keys name => key_define name keys) names [].

(** Array-index names and their numeric order. *)
Definition is_array_index (name : string) : bool :=
  match array_index name with Some _ => true | None => false end.

Definition index_value (name : string) : N :=
  match array_index name with Some n => n | None => 0%N end.

Definition index_le (a b : string) : Prop := (index_value a <= index_value b)%N.

(** The table after the branch cycles of [done], each with the results of
    its two suites. *)
Definition cycle_results (table : obj (obj WPPerformanceResults))
    (cycle : string * (WPPerformanceResults * WPPerformanceResults))
    : obj (obj WPPerformanceResults) :=
  withSuiteResult
    (withSuiteResult table "post-editor" (fst cycle) (fst (snd cycle)))
    "site-editor" (fst cycle) (snd (snd cycle)).

(** The table is empty, or it has the two suites in their fixed order, each
    with the branch keys [keys]. *)
Definition table_shape (table : obj (obj WPPerformanceResults))
    (keys : list string) : Prop :=
  (table = [] /\ keys = [])
  \/ exists by_post by_site,
       table = [("post-editor", by_post); ("site-editor", by_site)]
       /\ obj_keys by_post = keys /\ obj_keys by_site = keys.

(** Whether the value of a metric for the branch [key] gets a cell in the
    transposed table. *)
Definition shown (key : string) (value : number) : bool :=
  (isFinite value && negb (String.eqb key "__proto__"))%bool.

(** The path of the results file of a suite. *)
Definition resultsPath (w : collaborators) (testSuite : string) : string :=
  path_resolve w (dirname w) "../../../" (testSuite ++ "-performance-results.json").

(** A string of decimal digits. *)
Definition all_digits (s : string) : Prop :=
  Forall (fun c => is_digit c = true) (list_ascii_of_string s).

(** ** Further notions: the calls of the steps *)

(** Every value of an object with the thirteen metric keys satisfies [P]. *)
Definition perf_all {A : Type} (P : A -> Prop) (o : perf A) : Prop :=
  Forall P (map snd (perf_entries o)).

(** Kinds of calls. *)
Definition is_confirmation (e : event) : bool :=
  match e with AskForConfirmation _ => true | _ => false end.

Definition is_shell (e : event) : bool :=
  match e with RunShellScript _ _ => true | _ => false end.

Definition is_checkout (e : event) : bool :=
  match e with GitCheckoutRemoteBranch _ _ => true | _ => false end.

Definition is_file_access (e : event) : bool :=
  match e with ReadJSONFile _ | WriteFileSync _ _ => true | _ => false end.

Definition is_build (e : event) : bool :=
  match e with
  | RunShellScript script _ => String.eqb script buildScript
  | _ => false
  end.

Definition is_test_run (e : event) : bool :=
  match e with
  | RunShellScript script _ => String.prefix "npm run test-performance -- " script
  | _ => false
  end.

Definition is_start (e : event) : bool :=
  match e with
  | RunShellScript script _ => String.eqb script "npm run wp-env start"
  | _ => false
  end.

(** The first call of [runPerformanceTests]. *)
Definition welcome_event (w : collaborators) : event :=
  Log [formats_title w (LF ++ "💃 Performance Tests 🕺" ++ LF ++ LF); welcome].

(** The calls of [setUpGitBranch], in order. *)
Definition setUp_events (w : collaborators) (branch environmentDirectory : string)
    : list event :=
  [ GitDiscardLocalChanges environmentDirectory;
    Log [">> Fetching the " ++ formats_success w branch ++ " branch"];
    GitCheckoutRemoteBranch environmentDirectory branch;
    Log [">> Building the " ++ formats_success w branch ++ " branch"];
    RunShellScript buildScript (Some environmentDirectory) ].

(** The calls of a suite run that succeeds: three test runs, each followed by
    a read of the results file. *)
Definition suite_events (w : collaborators)
    (testSuite performanceTestDirectory : string) : list event :=
  (testRun_events w testSuite performanceTestDirectory
     ++ testRun_events w testSuite performanceTestDirectory
     ++ testRun_events w testSuite performanceTestDirectory)%list.

(** The calls of one turn of the branch loop that succeeds. *)
Definition cycle_events (w : collaborators)
    (performanceTestDirectory environmentDirectory branch : string) : list event :=
  (setUp_events w branch environmentDirectory
     ++ [Log [(">> Running the test on the " ++ formats_success w branch
                 ++ " branch")%string]]
     ++ suite_events w "post-editor" performanceTestDirectory
     ++ suite_events w "site-editor" performanceTestDirectory)%list.

(** The calls of the report of one suite. *)
Definition reportSuite_events (w : collaborators) (testSuite : string)
    (by_branch : obj WPPerformanceResults) : list event :=
  [ Log [LF ++ ">> " ++ testSuite ++ LF];
    ConsoleTable (invert w by_branch);
    WriteFileSync (resultsPath w testSuite) (json_of_suite by_branch) ].

(** The download address of a version. *)
Definition zipUrl_of (wpVersion : string) : string :=
  "https://wordpress.org/wordpress-" ++ zipVersion_of wpVersion ++ ".zip".

(** A version that the pattern leaves alone, or one from which it removes
    the two characters after [major.minor]. *)
Definition removes_two_after_minor (version result : string) : Prop :=
  exists major minor c after,
    major <> "" /\ minor <> "" /\ all_digits major /\ all_digits minor
    /\ is_line_terminator c = false
    /\ version = major ++ "." ++ minor ++ String c (String "0" after)
    /\ result = major ++ "." ++ minor ++ after.

(** Collaborators whose user declines at the prompt; every other call
    answers as with [sample_collaborators]. *)
Definition declining_collaborators : collaborators :=
  {| askForConfirmation_ok := fun _ _ => false;
     git_clone_result := git_clone_result (sample_collaborators "");
     git_checkoutRemoteBranch_ok := git_checkoutRemoteBranch_ok (sample_collaborators "");
     git_discardLocalChanges_ok := git_discardLocalChanges_ok (sample_collaborators "");
     getRandomTemporaryPath_result := getRandomTemporaryPath_result (sample_collaborators "");
     runShellScript_ok := runShellScript_ok (sample_collaborators "");
     readJSONFile_results := readJSONFile_results (sample_collaborators "");
     readJSONFile_config := readJSONFile_config (sample_collaborators "");
     writeFileSync_ok := writeFileSync_ok (sample_collaborators "");
     path_join := path_join (sample_collaborators "");
     path_resolve := path_resolve (sample_collaborators "");
     dirname := dirname (sample_collaborators "");
     gitRepositoryURL := gitRepositoryURL (sample_collaborators "");
     formats_title := formats_title (sample_collaborators "");
     formats_success := formats_success (sample_collaborators "");
     number_toString := number_toString (sample_collaborators "") |}.

(** Options of a session that is not run on CI. *)
Definition interactive_options : WPPerformanceCommandOptions :=
  {| ci := None; testsBranch := Some "tests"; wpVersion := Some "5.7.0" |}.

(** The three kinds of calls that the report makes. *)
Definition is_report_call (e : event) : bool :=
  match e with
  | Log _ | ConsoleTable _ | WriteFileSync _ _ => true
  | _ => false
  end.

(** A computation whose only failures are rejected calls, the rejected call
    being the last one made. *)
Definition fails_by_rejection {A : Type} (m : M A) : Prop :=
  forall s s' e,
    m s = (s', inl e) ->
    exists before c, trace s' = (before ++ [c])%list /\ e = Rejected c.

(** The path of the configuration that [runPerformanceTests] patches. *)
Definition confPath_of (environmentDirectory : string) : string :=
  environmentDirectory ++ "/.wp-env.json".

Definition startScript : string := "npm run wp-env start".

(** The calls that need the environment: its start and its stop, a build,
    a test run, the access to a file, the display of a table. *)
Definition uses_environment (e : event) : bool :=
  (is_start e || is_stop e || is_build e || is_test_run e
   || is_file_access e || is_table e)%bool.

(** The calls that patch the configuration of the environment, which held
    [conf0], for the version [version]. *)
Definition config_events (version environmentDirectory : string)
    (conf0 : obj json) : list event :=
  [Log ["Using WordPress version " ++ zipVersion_of version];
   ReadJSONFile (confPath_of environmentDirectory);
   WriteFileSync (confPath_of environmentDirectory)
     (JObject (obj_define "core" (JString (zipUrl_of version)) conf0))].

(** ** Facts about numbers *)

Lemma Qc_ltb_lt (x y : Qc) : Qc_ltb x y = true <-> (x < y)%Qc.
Proof.
  unfold Qc_ltb. rewrite Qclt_alt.
  destruct (x ?= y)%Qc; split; congruence.
Qed.

Lemma Qc_ltb_ge (x y : Qc) : Qc_ltb x y = false <-> (y <= x)%Qc.
Proof.
  split; intro H.
  - apply Qcnot_lt_le. intro L. apply Qc_ltb_lt in L. congruence.
  - destruct (Qc_ltb x y) eqn:E; [| reflexivity].
    apply Qc_ltb_lt in E. exfalso. exact (Qcle_not_lt _ _ H E).
Qed.

Lemma Qc_eqb_eq (x y : Qc) : Qc_eqb x y = true <-> x = y.
Proof.
  unfold Qc_eqb. rewrite Qeq_bool_iff. split.
  - apply Qc_is_canon.
  - intros ->. reflexivity.
Qed.

Lemma number_eqb_eq (a b : number) : number_eqb a b = true -> a = b.
Proof.
  destruct a, b; simpl; try congruence.
  intro H. apply Qc_eqb_eq in H. congruence.
Qed.

Lemma Qc_of_Z_value (z : Z) : (Qc_of_Z z == inject_Z z)%Q.
Proof. unfold Qc_of_Z, Q2Qc. cbn [this]. apply Qred_correct. Qed.

Lemma Qc_of_Z_nonzero (z : Z) : z <> 0 -> Qc_of_Z z <> 0%Qc.
Proof.
  intros Hz H. apply Hz.
  assert (E : (Qc_of_Z z == 0)%Q) by (rewrite H; reflexivity).
  rewrite Qc_of_Z_value in E. unfold Qeq in E. simpl in E. lia.
Qed.

Lemma fold_add_finite (qs : list Qc) (a : Qc) :
  fold_left (fun x y => num_add x y) (map Fin qs) (Fin a) = Fin (a + Qc_sum qs)%Qc.
Proof.
  revert a. induction qs as [| q qs IH]; intro a; simpl.
  - now rewrite Qcplus_0_r.
  - rewrite IH. now rewrite Qcplus_assoc.
Qed.

(** On a non-empty sequence of finite values [average] is the mean. *)
Lemma average_finite (qs : list Qc) :
  qs <> [] -> average (map Fin qs) = Fin (Qc_mean qs).
Proof.
  intro Hne. unfold average, of_Z, length_of.
  replace (Qc_of_Z 0) with 0%Qc by (apply Qc_is_canon; reflexivity).
  rewrite fold_add_finite, Qcplus_0_l, length_map. simpl.
  destruct (Qc_eqb (Qc_of_Z (Z.of_nat (List.length qs))) 0) eqn:E.
  - apply Qc_eqb_eq in E. exfalso. revert E. apply Qc_of_Z_nonzero.
    destruct qs; [congruence | simpl; lia].
  - reflexivity.
Qed.

(** ** The definitions on small inputs *)

Example average_two : average [of_Z 1; of_Z 2] = Fin (Q2Qc (3 # 2)).
Proof. apply number_eqb_eq. vm_compute. reflexivity. Qed.

Example median_with_infinity :
  median [Infinity; of_Z 7; NegInfinity; of_Z 3] = of_Z 5.
Proof. apply number_eqb_eq. vm_compute. reflexivity. Qed.

Example formatTime_half_up :
  formatTime (Fin (Q2Qc (5 # 1000))) = Fin (Q2Qc (1 # 100))
  /\ formatTime (Fin (Q2Qc (-5 # 1000))) = Fin (Q2Qc 0).
Proof. split; apply number_eqb_eq; vm_compute; reflexivity. Qed.

Example array_index_names :
  map array_index ["0"; "10"; "01"; "4294967294"; "4294967295"; "trunk"; "1.0"; ""]
  = [Some 0%N; Some 10%N; None; Some 4294967294%N; None; None; None; None].
Proof. reflexivity. Qed.

Example obj_define_order :
  obj_keys (obj_define "2" tt (obj_define "a" tt (obj_define "10" tt
             (obj_define "b" tt []))))
  = ["2"; "10"; "b"; "a"]
  /\ obj_define "b" 1%nat [("b", 0%nat); ("a", 0%nat)] = [("b", 1%nat); ("a", 0%nat)].
Proof. split; reflexivity. Qed.

Example obj_assign_proto :
  obj_assign_primitive "__proto__" "1 ms" [("trunk", "2 ms")] = [("trunk", "2 ms")]
  /\ obj_assign_primitive "rc" "1 ms" [("trunk", "2 ms")]
     = [("trunk", "2 ms"); ("rc", "1 ms")].
Proof. split; reflexivity. Qed.

Example match_version_backtracks :
  match_version "12.345x0-beta" = Some ("12.345", "-beta")
  /\ match_version "12.3450" = Some ("12.34", "")
  /\ match_version "12.34" = None.
Proof. repeat split; reflexivity. Qed.

Example sample_toString_values :
  map sample_toString
      [Fin (Q2Qc (1235 # 100)); of_Z 20; Fin (Q2Qc (5 # 100)); Fin (Q2Qc (-15 # 10))]
  = ["12.35"; "20"; "0.05"; "-1.5"].
Proof. vm_compute. reflexivity. Qed.

(** ** The order of numbers and the sort *)

Lemma num_le_refl (a : number) : not_NaN a -> num_le a a.
Proof. unfold not_NaN. destruct a; cbn [num_le]; try tauto. intros _. apply Qcle_refl. Qed.

Lemma num_le_trans (a b c : number) : num_le a b -> num_le b c -> num_le a c.
Proof.
  destruct a, b, c; cbn [num_le]; try tauto. apply Qcle_trans.
Qed.

Lemma num_le_antisym (a b : number) : num_le a b -> num_le b a -> a = b.
Proof.
  destruct a, b; cbn [num_le]; try tauto.
  intros H1 H2. f_equal. now apply Qcle_antisym.
Qed.

Lemma num_le_total (a b : number) :
  not_NaN a -> not_NaN b -> num_le a b \/ num_le b a.
Proof.
  unfold not_NaN. destruct a, b; cbn [num_le]; try tauto.
  intros _ _. destruct (Qclt_le_dec q q0) as [L | L]; [left | right]; auto.
  now apply Qclt_le_weak.
Qed.

Lemma num_ltb_true (a b : number) : num_ltb a b = true -> num_le a b.
Proof.
  destruct a, b; cbn [num_ltb num_le]; try discriminate; try tauto.
  intro H. apply Qc_ltb_lt in H. now apply Qclt_le_weak.
Qed.

Lemma num_ltb_false (a b : number) :
  not_NaN a -> not_NaN b -> num_ltb a b = false -> num_le b a.
Proof.
  unfold not_NaN. destruct a, b; cbn [num_ltb num_le]; try discriminate; try tauto.
  intros _ _ H. now apply Qc_ltb_ge.
Qed.

(** ** Mean, minimum and maximum of a sequence *)

Lemma min2_not_NaN (lowest x : number) :
  not_NaN lowest -> not_NaN x ->
  min2 lowest x = if num_ltb x lowest then x else lowest.
Proof. unfold not_NaN. destruct lowest, x; try reflexivity; congruence. Qed.

Lemma max2_not_NaN (highest x : number) :
  not_NaN highest -> not_NaN x ->
  max2 highest x = if num_ltb highest x then x else highest.
Proof. unfold not_NaN. destruct highest, x; try reflexivity; congruence. Qed.

Lemma fold_min_least (l : list number) (lowest : number) :
  not_NaN lowest -> Forall not_NaN l ->
  not_NaN (fold_left min2 l lowest)
  /\ is_least (lowest :: l) (fold_left min2 l lowest).
Proof.
  intros Hlow Hl. revert lowest Hlow.
  induction Hl as [| x l Hx Hl IH]; intros lowest Hlow; cbn [fold_left].
  - split; [exact Hlow |]. split; [now left |].
    intros y [<- | []]. now apply num_le_refl.
  - rewrite (min2_not_NaN lowest x Hlow Hx).
    assert (Hstep : not_NaN (if num_ltb x lowest then x else lowest)
                    /\ num_le (if num_ltb x lowest then x else lowest) lowest
                    /\ num_le (if num_ltb x lowest then x else lowest) x
                    /\ In (if num_ltb x lowest then x else lowest) [lowest; x]).
    { destruct (num_ltb x lowest) eqn:L.
      - repeat split; [exact Hx | now apply num_ltb_true | now apply num_le_refl
                       | cbn; tauto].
      - repeat split; [exact Hlow | now apply num_le_refl
                       | now apply num_ltb_false | cbn; tauto]. }
    destruct Hstep as (Hn & Hle1 & Hle2 & Hin).
    destruct (IH _ Hn) as (Hm & Hmin & Hall).
    split; [exact Hm |]. split.
    + destruct Hmin as [<- | Hmin]; [| cbn; tauto].
      destruct Hin as [<- | [<- | []]]; cbn; tauto.
    + pose proof (Hall _ (or_introl eq_refl)) as H0.
      intros y [<- | [<- | Hy]].
      * eapply num_le_trans; eassumption.
      * eapply num_le_trans; eassumption.
      * apply Hall. now right.
Qed.

Lemma fold_max_greatest (l : list number) (highest : number) :
  not_NaN highest -> Forall not_NaN l ->
  not_NaN (fold_left max2 l highest)
  /\ is_greatest (highest :: l) (fold_left max2 l highest).
Proof.
  intros Hhigh Hl. revert highest Hhigh.
  induction Hl as [| x l Hx Hl IH]; intros highest Hhigh; cbn [fold_left].
  - split; [exact Hhigh |]. split; [now left |].
    intros y [<- | []]. now apply num_le_refl.
  - rewrite (max2_not_NaN highest x Hhigh Hx).
    assert (Hstep : not_NaN (if num_ltb highest x then x else highest)
                    /\ num_le highest (if num_ltb highest x then x else highest)
                    /\ num_le x (if num_ltb highest x then x else highest)
                    /\ In (if num_ltb highest x then x else highest) [highest; x]).
    { destruct (num_ltb highest x) eqn:L.
      - repeat split; [exact Hx | now apply num_ltb_true | now apply num_le_refl
                       | cbn; tauto].
      - repeat split; [exact Hhigh | now apply num_le_refl
                       | now apply num_ltb_false | cbn; tauto]. }
    destruct Hstep as (Hn & Hle1 & Hle2 & Hin).
    destruct (IH _ Hn) as (Hm & Hmax & Hall).
    split; [exact Hm |]. split.
    + destruct Hmax as [<- | Hmax]; [| cbn; tauto].
      destruct Hin as [<- | [<- | []]]; cbn; tauto.
    + pose proof (Hall _ (or_introl eq_refl)) as H0.
      intros y [<- | [<- | Hy]].
      * eapply num_le_trans; eassumption.
      * eapply num_le_trans; eassumption.
      * apply Hall. now right.
Qed.

Lemma Math_min_least (l : list number) :
  l <> [] -> Forall not_NaN l -> is_least l (Math_min l).
Proof.
  intros Hne Hl. unfold Math_min.
  destruct (fold_min_least l Infinity) as (_ & Hin & Hall);
    [discriminate | exact Hl |].
  split; [| intros x Hx; apply Hall; now right].
  destruct Hin as [E | Hin]; [| exact Hin].
  destruct l as [| x l]; [congruence |].
  pose proof (Hall x (or_intror (or_introl eq_refl))) as Hx.
  rewrite <- E in Hx |- *. inversion Hl as [| ? ? Hnx _]; subst.
  unfold not_NaN in Hnx. destruct x; cbn in Hx; try tauto. now left.
Qed.

Lemma Math_max_greatest (l : list number) :
  l <> [] -> Forall not_NaN l -> is_greatest l (Math_max l).
Proof.
  intros Hne Hl. unfold Math_max.
  destruct (fold_max_greatest l NegInfinity) as (_ & Hin & Hall);
    [discriminate | exact Hl |].
  split; [| intros x Hx; apply Hall; now right].
  destruct Hin as [E | Hin]; [| exact Hin].
  destruct l as [| x l]; [congruence |].
  pose proof (Hall x (or_intror (or_introl eq_refl))) as Hx.
  rewrite <- E in Hx |- *. inversion Hl as [| ? ? Hnx _]; subst.
  unfold not_NaN in Hnx. destruct x; cbn in Hx; try tauto. now left.
Qed.

(** [NaN] is absorbing. *)
Lemma fold_absorbing (f : number -> number -> number) (l : list number)
    (start : number) :
  (forall x, f NaN x = NaN) -> (forall a, f a NaN = NaN) ->
  start = NaN \/ In NaN l -> fold_left f l start = NaN.
Proof.
  intros Hl Hr. revert start.
  induction l as [| x l IH]; intros start [-> | Hin]; cbn [fold_left].
  - reflexivity.
  - destruct Hin.
  - apply IH. left. apply Hl.
  - apply IH. destruct Hin as [-> | Hin]; [left; apply Hr | now right].
Qed.

Lemma average_NaN (l : list number) : In NaN l -> average l = NaN.
Proof.
  intro Hin. unfold average.
  rewrite (fold_absorbing (fun a b => num_add a b) l (of_Z 0)); auto.
  intro a. now destruct a.
Qed.

Lemma Math_min_NaN (l : list number) : In NaN l -> Math_min l = NaN.
Proof.
  intro Hin. unfold Math_min. apply fold_absorbing; auto.
  intro a. now destruct a.
Qed.

Lemma Math_max_NaN (l : list number) : In NaN l -> Math_max l = NaN.
Proof.
  intro Hin. unfold Math_max. apply fold_absorbing; auto.
  intro a. now destruct a.
Qed.

Lemma average_mean_of (l : list number) : l <> [] -> mean_of l (average l).
Proof.
  intro Hne. split.
  - intros qs ->. apply average_finite. now destruct qs.
  - apply average_NaN.
Qed.

Lemma summarises_curated (l : list number) :
  l <> [] -> summarises l (average l) (Math_min l) (Math_max l).
Proof.
  intro Hne. split; [now apply average_mean_of |]. split.
  - intro Hl. split; [now apply Math_min_least | now apply Math_max_greatest].
  - intro Hin. split; [now apply Math_min_NaN | now apply Math_max_NaN].
Qed.



Lemma Qc_zero_lt_minus (x y : Qc) : (Qc_of_Z 0 < x + - y)%Qc <-> (y < x)%Qc.
Proof.
  replace (Qc_of_Z 0) with 0%Qc by (apply Qc_is_canon; reflexivity).
  symmetry. apply Qclt_minus_iff.
Qed.

(** The comparison function [( a, b ) => a - b] puts [a] after [b] exactly
    when [a <= b] fails. *)
Lemma sorts_after_minus (a b : number) :
  not_NaN a -> not_NaN b ->
  (sorts_after (fun a b => num_sub a b) a b = false <-> num_le a b).
Proof.
  unfold not_NaN, sorts_after, num_sub.
  destruct a, b; cbn [num_add num_neg num_ltb of_Z num_le]; try tauto;
    try (intros _ _; split; [tauto | reflexivity]);
    try (intros _ _; split; [discriminate | tauto]).
  intros _ _. rewrite Qc_ltb_ge.
  split; intro H.
  - apply Qcnot_lt_le. intro L. apply (proj2 (Qc_zero_lt_minus _ _)) in L.
    exact (Qcle_not_lt _ _ H L).
  - apply Qcnot_lt_le. intro L. apply (proj1 (Qc_zero_lt_minus _ _)) in L.
    exact (Qcle_not_lt _ _ H L).
Qed.

Section SortFacts.

Variable comparefn : number -> number -> number.

Lemma insert_permutation (x : number) (l : list number) :
  Permutation (insert comparefn x l) (x :: l).
Proof.
  induction l as [| y l IH]; simpl; [reflexivity |].
  destruct (sorts_after comparefn x y); [| reflexivity].
  rewrite IH. apply perm_swap.
Qed.

Lemma sort_permutation (l : list number) : Permutation (sort comparefn l) l.
Proof.
  induction l as [| x l IH]; simpl; [reflexivity |].
  rewrite insert_permutation. now constructor.
Qed.

End SortFacts.

Abbreviation minus := (fun a b : number => num_sub a b) (only parsing).

Lemma insert_sorted (x : number) (l : list number) :
  not_NaN x -> Forall not_NaN l ->
  StronglySorted num_le l -> StronglySorted num_le (insert minus x l).
Proof.
  intros Hx Hl Hs. induction Hs as [| y l Hs IH Hy]; simpl.
  - repeat constructor.
  - inversion Hl as [| ? ? Hy' Hl']; subst.
    destruct (sorts_after minus x y) eqn:E.
    + assert (Hyx : num_le y x).
      { destruct (num_le_total x y Hx Hy') as [L | L]; [| exact L].
        apply (sorts_after_minus x y Hx Hy') in L. congruence. }
      constructor; [now apply IH |].
      eapply Permutation_Forall; [symmetry; apply insert_permutation |].
      constructor; assumption.
    + apply (sorts_after_minus x y Hx Hy') in E.
      constructor; [now constructor |].
      constructor; [exact E |].
      eapply Forall_impl; [| exact Hy]. intros z Hz.
      eapply num_le_trans; eassumption.
Qed.

Lemma sort_sorted (l : list number) :
  Forall not_NaN l -> StronglySorted num_le (sort minus l).
Proof.
  induction 1 as [| x l Hx Hl IH]; simpl; [constructor |].
  apply insert_sorted; [exact Hx | | exact IH].
  eapply Permutation_Forall; [symmetry; apply sort_permutation | exact Hl].
Qed.

(** A sequence has at most one ascending arrangement. *)
Lemma sorted_unique (l1 l2 : list number) :
  StronglySorted num_le l1 -> StronglySorted num_le l2 ->
  Permutation l1 l2 -> l1 = l2.
Proof.
  intro H1. revert l2. induction H1 as [| a l1 Hs1 IH Ha]; intros l2 H2 HP.
  - apply Permutation_nil in HP. now subst.
  - destruct H2 as [| b l2 Hs2 Hb].
    + symmetry in HP. apply Permutation_nil in HP. discriminate.
    + assert (E : a = b).
      { assert (Ia : In a (b :: l2))
          by (eapply Permutation_in; [exact HP | now left]).
        assert (Ib : In b (a :: l1))
          by (eapply Permutation_in; [symmetry; exact HP | now left]).
        destruct Ia as [-> | Ia]; [reflexivity |].
        destruct Ib as [-> | Ib]; [reflexivity |].
        rewrite Forall_forall in Ha, Hb.
        apply num_le_antisym; auto. }
      subst b. f_equal. apply IH; [exact Hs2 |].
      eapply Permutation_cons_inv; exact HP.
Qed.

Lemma at_index_nth (l : list number) (n : nat) :
  at_index l (Z.of_nat n) = nth n l NaN.
Proof.
  unfold at_index. destruct (Z.of_nat n <? 0)%Z eqn:E; [apply Z.ltb_lt in E; lia |].
  now rewrite Nat2Z.id.
Qed.

Lemma median_unfold (array : list number) :
  let n := List.length array in
  median array =
  if Nat.odd n
  then nth (n / 2) (sort minus array) NaN
  else num_div (num_add (at_index (sort minus array) (Z.of_nat (n / 2) - 1))
                        (nth (n / 2) (sort minus array) NaN))
               (of_Z 2).
Proof.
  cbn zeta. unfold median, length_of.
  set (n := List.length array).
  assert (Hdiv : (Z.of_nat n / 2)%Z = Z.of_nat (n / 2))
    by (rewrite (Nat2Z.inj_div n 2); reflexivity).
  assert (Hodd : negb (Z.of_nat n mod 2 =? 0)%Z = Nat.odd n).
  { destruct (Nat.odd n) eqn:E.
    - apply Nat.odd_spec in E. destruct E as [k ->].
      apply negb_true_iff, Z.eqb_neq.
      replace (Z.of_nat (2 * k + 1)) with (1 + Z.of_nat k * 2)%Z by lia.
      rewrite Z_mod_plus_full. discriminate.
    - rewrite <- Nat.negb_even in E. apply negb_false_iff, Nat.even_spec in E.
      destruct E as [k ->]. apply negb_false_iff, Z.eqb_eq.
      replace (Z.of_nat (2 * k)) with (Z.of_nat k * 2)%Z by lia.
      apply Z_mod_mult. }
  rewrite Hodd, Hdiv, at_index_nth. reflexivity.
Qed.

(** C2. For a non-empty array, [median] reads a rearrangement [numbers] of
    the array: its middle element [numbers[ floor( n / 2 ) ]] when the length
    [n] is odd, and half the sum of the two middle elements when [n] is even.
    When the array has no [NaN], [numbers] is ascending, and it is the only
    ascending rearrangement of the array.  So 5, 1, 3 gives 3 and 4, 6
    gives 5. *)
Theorem median_middle_of_sorted (array : list number) :
  array <> [] ->
  (exists numbers,
      Permutation numbers array
      /\ (Forall not_NaN array ->
          StronglySorted num_le numbers
          /\ forall other, Permutation other array ->
                           StronglySorted num_le other -> other = numbers)
      /\ let n := List.length array in
         (Nat.odd n = true -> median array = nth (n / 2) numbers NaN)
         /\ (Nat.even n = true ->
             median array =
             num_div (num_add (nth (n / 2 - 1) numbers NaN)
                              (nth (n / 2) numbers NaN))
                     (of_Z 2)))
  /\ median [of_Z 5; of_Z 1; of_Z 3] = of_Z 3
  /\ median [of_Z 4; of_Z 6] = of_Z 5.
Proof.
  intros Hne. split.
  - exists (sort minus array).
    assert (HP : Permutation (sort minus array) array) by apply sort_permutation.
    split; [exact HP |]. split.
    + intro Hnan.
      assert (HS : StronglySorted num_le (sort minus array)) by now apply sort_sorted.
      split; [exact HS |].
      intros other HPo HSo. apply sorted_unique; [exact HSo | exact HS |].
      rewrite HPo. symmetry. exact HP.
    + cbn zeta. pose proof (median_unfold array) as E. cbn zeta in E.
      split; intro Hpar.
      * rewrite E, Hpar. reflexivity.
      * rewrite E. rewrite <- Nat.negb_even, Hpar. cbn [negb].
        apply Nat.even_spec in Hpar. destruct Hpar as [k Hk].
        assert (Hk1 : (1 <= k)%nat).
        { destruct array; [congruence |]. simpl in Hk. lia. }
        rewrite Hk.
        replace (2 * k / 2)%nat with k
          by (rewrite Nat.mul_comm, Nat.div_mul; [reflexivity | discriminate]).
        replace (Z.of_nat k - 1)%Z with (Z.of_nat (k - 1)) by lia.
        rewrite at_index_nth. reflexivity.
  - split; apply number_eqb_eq; vm_compute; reflexivity.
Qed.

Lemma median_middle_of_sorted_witness :
  exists numbers,
    Permutation numbers [of_Z 9; Infinity; of_Z 2; NegInfinity; of_Z 9]
    /\ StronglySorted num_le numbers
    /\ median [of_Z 9; Infinity; of_Z 2; NegInfinity; of_Z 9] = nth 2 numbers NaN.
Proof.
  destruct (median_middle_of_sorted
              [of_Z 9; Infinity; of_Z 2; NegInfinity; of_Z 9])
    as [(numbers & HP & HS & Hodd & _) _].
  - discriminate.
  - exists numbers. split; [exact HP |]. split.
    + apply HS. repeat constructor; discriminate.
    + apply Hodd. reflexivity.
Defined.

(** ** Rounding *)

Ltac Qc_to_Q :=
  unfold Qclt, Qcle, Qcminus, Qcplus, Qcmult, Qcopp, Qc_of_Z, Qc_half, Q2Qc in *;
  cbn [this] in *; rewrite ?Qred_correct in *.

Lemma factor_100 : Math_pow (of_Z 10) 2 = of_Z 100.
Proof. apply number_eqb_eq. vm_compute. reflexivity. Qed.

Lemma formatTime_unfold (n : number) :
  formatTime n = num_div (Math_round (num_mul n (of_Z 100))) (of_Z 100).
Proof. unfold formatTime. cbn zeta. now rewrite factor_100. Qed.

Lemma formatTime_finite (q : Qc) :
  formatTime (Fin q)
  = Fin (Qc_of_Z (Qfloor (q * Qc_of_Z 100 + Qc_half)%Qc) / Qc_of_Z 100)%Qc.
Proof.
  rewrite formatTime_unfold. unfold of_Z. cbn [num_mul Math_round num_div of_Z].
  unfold of_Z. cbn [num_div].
  destruct (Qc_eqb (Qc_of_Z 100) 0) eqn:E; [| reflexivity].
  apply Qc_eqb_eq in E. exfalso. revert E. now apply Qc_of_Z_nonzero.
Qed.

(** The integer [k] that [Math.round] picks for [100 * q]: the one with
    [100 * q - 1/2 < k <= 100 * q + 1/2], so the nearest one, and the upper
    one of the two when [100 * q] lies half-way. *)
Lemma round_bounds (q : Qc) :
  let k := Qfloor (q * Qc_of_Z 100 + Qc_half)%Qc in
  (Qc_of_Z 100 * q - Qc_half < Qc_of_Z k)%Qc
  /\ (Qc_of_Z k <= Qc_of_Z 100 * q + Qc_half)%Qc.
Proof.
  cbn zeta.
  pose proof (Qfloor_le (q * Qc_of_Z 100 + Qc_half)%Qc) as Hle.
  pose proof (Qlt_floor (q * Qc_of_Z 100 + Qc_half)%Qc) as Hlt.
  set (k := Qfloor (q * Qc_of_Z 100 + Qc_half)%Qc) in *.
  rewrite inject_Z_plus in Hlt.
  Qc_to_Q.
  change (inject_Z 100) with (100 # 1)%Q in *.
  change (inject_Z 1) with (1 # 1)%Q in *.
  split; lra.
Qed.

(** ** The suite runner *)

Lemma perf_get_suiteMedians (key : string) (c1 c2 c3 : WPPerformanceResults) :
  In key metric_keys ->
  exists v1 v2 v3,
    perf_get key c1 = Some v1 /\ perf_get key c2 = Some v2
    /\ perf_get key c3 = Some v3
    /\ perf_get key (suiteMedians [c1; c2; c3])
       = Some (formatTime (median [v1; v2; v3])).
Proof.
  intro Hin. unfold metric_keys in Hin. cbn [In] in Hin.
  repeat (destruct Hin as [<- | Hin];
          [do 3 eexists; repeat split; reflexivity |]).
  contradiction.
Qed.


Lemma runTestSuite_result (w : collaborators)
    (testSuite performanceTestDirectory : string) (s : session) :
  match snd (runTestSuite w testSuite performanceTestDirectory s) with
  | inr suiteResult => exists curated, suiteResult = suiteMedians curated
  | inl _ => True
  end.
Proof.
  unfold runTestSuite, bind.
  destruct (testRuns w testSuite performanceTestDirectory 3 [] s) as [s' [e | curated]];
    cbn [snd ret]; [exact I |].
  now exists curated.
Qed.



(** ** The zip version *)

(** The [core] entry that [prepareEnvironment] writes to [.wp-env.json]. *)
Lemma zipUrl_written (version : string) :
  version <> "" ->
  In (WriteFileSync "/tmp/env/.wp-env.json"
        (JObject [("port", JNumber (of_Z 8888));
                  ("core", JString ("https://wordpress.org/wordpress-"
                                      ++ zipVersion_of version ++ ".zip"))]))
     (trace (fst (prepareEnvironment (sample_collaborators "")
                    (sample_options (Some version)) fresh_session))).
Proof.
  intro Hv.
  assert (T : truthy_string (Some version) = true).
  { cbn. destruct (String.eqb_spec version ""); [contradiction | reflexivity]. }
  unfold prepareEnvironment, sample_options.
  cbn [ci testsBranch wpVersion truthy_bool negb]. rewrite T.
  cbn. repeat (try (left; reflexivity); right).
Qed.

(** C6. The three versions of the comment in the source come out as it says:
    5.7.0 gives 5.7 while 5.7.2 and 5.7 stay.  The pattern does more than
    remove a patch level [.0]: its dot accepts any character and nothing ties
    it to the end of the version, so 5.100 gives 5.1, 5.7.01 gives 5.71 and
    5.7x0 gives 5.7; the URL written for 5.100 is that of version 5.1. *)
Theorem zipVersion_of_versions :
  zipVersion_of "5.7.0" = "5.7"
  /\ zipVersion_of "5.7.2" = "5.7.2"
  /\ zipVersion_of "5.7" = "5.7"
  /\ zipVersion_of "5.100" = "5.1"
  /\ zipVersion_of "5.7.01" = "5.71"
  /\ zipVersion_of "5.7x0" = "5.7"
  /\ In (WriteFileSync "/tmp/env/.wp-env.json"
           (JObject [("port", JNumber (of_Z 8888));
                     ("core", JString "https://wordpress.org/wordpress-5.1.zip")]))
        (trace (fst (prepareEnvironment (sample_collaborators "")
                       (sample_options (Some "5.100")) fresh_session))).
Proof.
  repeat (split; [reflexivity |]).
  exact (zipUrl_written "5.100" ltac:(discriminate)).
Qed.

(** ** Facts about sessions *)

Lemma bind_ok {A B : Type} (m : M A) (k : A -> M B) (s s' : session) (a : A) :
  m s = (s', inr a) -> bind m k s = k a s'.
Proof. unfold bind. now intros ->. Qed.

Lemma bind_failed {A B : Type} (m : M A) (k : A -> M B) (s s' : session) (e : exn) :
  m s = (s', inl e) -> bind m k s = (s', inl e).
Proof. unfold bind. now intros ->. Qed.

Lemma bind_inversion {A B : Type} (m : M A) (k : A -> M B) (s s' : session) (b : B) :
  bind m k s = (s', inr b) ->
  exists s1 a, m s = (s1, inr a) /\ k a s1 = (s', inr b).
Proof.
  unfold bind. destruct (m s) as [s1 [e | a]]; [discriminate |].
  intro H. now exists s1, a.
Qed.

Lemma for_of_app {A : Type} (l1 l2 : list A) (body : A -> M unit) (s : session) :
  for_of (l1 ++ l2)%list body s
  = bind (for_of l1 body) (fun _ => for_of l2 body) s.
Proof.
  revert s. induction l1 as [| x l1 IH]; intro s; cbn [for_of app].
  - reflexivity.
  - unfold bind in *.
    destruct (body x s) as [s1 [e | []]]; [reflexivity | apply IH].
Qed.

Section Appends.

Variable P : event -> Prop.

Lemma appends_ret {A : Type} (a : A) : appends P (ret a).
Proof. intro s. exists []. cbn. now rewrite app_nil_r. Qed.

Lemma appends_throw {A : Type} (e : exn) : appends P (@throw A e).
Proof. intro s. exists []. cbn. now rewrite app_nil_r. Qed.

Lemma appends_get_results : appends P get_results.
Proof. intro s. exists []. cbn. now rewrite app_nil_r. Qed.

Lemma appends_set_results (value : obj (obj WPPerformanceResults)) :
  appends P (set_results value).
Proof. intro s. exists []. cbn. now rewrite app_nil_r. Qed.

Lemma appends_call {A : Type} (e : event) (answer : list event -> option A) :
  P e -> appends P (call e answer).
Proof.
  intros He s. exists [e]. unfold call.
  destruct (answer (trace s)); cbn; auto.
Qed.

Lemma appends_bind {A B : Type} (m : M A) (k : A -> M B) :
  appends P m -> (forall a, appends P (k a)) -> appends P (bind m k).
Proof.
  intros Hm Hk s. unfold bind.
  destruct (Hm s) as (evs & E & HP).
  destruct (m s) as [s1 [e | a]]; cbn [fst] in *.
  - now exists evs.
  - destruct (Hk a s1) as (evs' & E' & HP').
    exists (evs ++ evs')%list. rewrite E', E, app_assoc.
    split; [reflexivity | now apply Forall_app].
Qed.

Lemma appends_for_of {A : Type} (items : list A) (body : A -> M unit) :
  (forall x, appends P (body x)) -> appends P (for_of items body).
Proof.
  intro Hb. induction items as [| x items IH]; cbn [for_of].
  - apply appends_ret.
  - apply appends_bind; [apply Hb | intros _; exact IH].
Qed.

Lemma appends_if {A : Type} (b : bool) (m1 m2 : M A) :
  appends P m1 -> appends P m2 -> appends P (if b then m1 else m2).
Proof. now destruct b. Qed.

End Appends.

Lemma keeps_results_ret {A : Type} (a : A) : keeps_results (ret a).
Proof. intro s. reflexivity. Qed.

Lemma keeps_results_call {A : Type} (e : event) (answer : list event -> option A) :
  keeps_results (call e answer).
Proof. intro s. unfold call. now destruct (answer (trace s)). Qed.

Lemma keeps_results_bind {A B : Type} (m : M A) (k : A -> M B) :
  keeps_results m -> (forall a, keeps_results (k a)) -> keeps_results (bind m k).
Proof.
  intros Hm Hk s. unfold bind. specialize (Hm s).
  destruct (m s) as [s1 [e | a]]; cbn [fst] in *; [exact Hm |].
  now rewrite Hk.
Qed.

Lemma keeps_results_if {A : Type} (b : bool) (m1 m2 : M A) :
  keeps_results m1 -> keeps_results m2 -> keeps_results (if b then m1 else m2).
Proof. now destruct b. Qed.

Lemma keeps_results_for_of {A : Type} (items : list A) (body : A -> M unit) :
  (forall x, keeps_results (body x)) -> keeps_results (for_of items body).
Proof.
  intro Hb. induction items as [| x items IH]; cbn [for_of].
  - apply keeps_results_ret.
  - apply keeps_results_bind; [apply Hb | intros _; exact IH].
Qed.

(** ** What the steps before the end of the branch loop call *)

Ltac calm_event := split; reflexivity.

Ltac appends_calm :=
  repeat first
    [ apply appends_ret
    | apply appends_get_results
    | apply appends_set_results
    | apply appends_call; calm_event
    | apply appends_if
    | apply appends_bind; [| intro] ].

Section Calm.

Variable w : collaborators.

Lemma setUpGitBranch_calm (branch environmentDirectory : string) :
  appends calm (setUpGitBranch w branch environmentDirectory).
Proof.
  unfold setUpGitBranch, git_discardLocalChanges, git_checkoutRemoteBranch,
    log, runShellScript.
  appends_calm.
Qed.

Lemma testRuns_calm (testSuite performanceTestDirectory : string)
    (remaining : nat) (curated : list WPPerformanceResults) :
  appends calm (testRuns w testSuite performanceTestDirectory remaining curated).
Proof.
  revert curated. induction remaining as [| n IH]; intro curated; cbn [testRuns].
  - apply appends_ret.
  - unfold runShellScript, readJSONFile_raw.
    apply appends_bind; [apply appends_call; calm_event | intros _].
    apply appends_bind; [apply appends_call; calm_event | intro raw].
    apply IH.
Qed.

Lemma runTestSuite_calm (testSuite performanceTestDirectory : string) :
  appends calm (runTestSuite w testSuite performanceTestDirectory).
Proof.
  unfold runTestSuite.
  apply appends_bind; [apply testRuns_calm | intro; apply appends_ret].
Qed.

Lemma recordSuite_calm (branch performanceTestDirectory testSuite : string) :
  appends calm (recordSuite w branch performanceTestDirectory testSuite).
Proof.
  unfold recordSuite.
  apply appends_bind; [apply appends_get_results | intro current].
  apply appends_bind; [apply runTestSuite_calm | intro suiteResult].
  apply appends_set_results.
Qed.

Lemma branchCycle_calm (performanceTestDirectory environmentDirectory branch : string) :
  appends calm (branchCycle w performanceTestDirectory environmentDirectory branch).
Proof.
  unfold branchCycle.
  apply appends_bind; [apply setUpGitBranch_calm | intros _].
  apply appends_bind; [apply appends_call; calm_event | intros _].
  apply appends_for_of. intro testSuite. apply recordSuite_calm.
Qed.

Lemma branchLoop_calm (branches : list string)
    (performanceTestDirectory environmentDirectory : string) :
  appends calm (branchLoop w branches performanceTestDirectory environmentDirectory).
Proof.
  unfold branchLoop.
  apply appends_bind; [apply appends_set_results | intros _].
  apply appends_for_of. intro branch. apply branchCycle_calm.
Qed.

Lemma prepareEnvironment_calm (options : WPPerformanceCommandOptions) :
  appends calm (prepareEnvironment w options).
Proof.
  unfold prepareEnvironment, askForConfirmation, git_clone,
    git_checkoutRemoteBranch, getRandomTemporaryPath, log, runShellScript,
    readJSONFile_conf, writeFileSync.
  appends_calm.
Qed.

Lemma setUpGitBranch_keeps_results (branch environmentDirectory : string) :
  keeps_results (setUpGitBranch w branch environmentDirectory).
Proof.
  unfold setUpGitBranch, git_discardLocalChanges, git_checkoutRemoteBranch,
    log, runShellScript.
  repeat first [ apply keeps_results_call
               | apply keeps_results_bind; [| intro] ].
Qed.

Lemma testRuns_keeps_results (testSuite performanceTestDirectory : string)
    (remaining : nat) (curated : list WPPerformanceResults) :
  keeps_results (testRuns w testSuite performanceTestDirectory remaining curated).
Proof.
  revert curated. induction remaining as [| n IH]; intro curated; cbn [testRuns].
  - apply keeps_results_ret.
  - unfold runShellScript, readJSONFile_raw.
    apply keeps_results_bind; [apply keeps_results_call | intros _].
    apply keeps_results_bind; [apply keeps_results_call | intro raw].
    apply IH.
Qed.

Lemma runTestSuite_keeps_results (testSuite performanceTestDirectory : string) :
  keeps_results (runTestSuite w testSuite performanceTestDirectory).
Proof.
  unfold runTestSuite.
  apply keeps_results_bind; [apply testRuns_keeps_results |].
  intro. apply keeps_results_ret.
Qed.

Lemma prepareEnvironment_keeps_results (options : WPPerformanceCommandOptions) :
  keeps_results (prepareEnvironment w options).
Proof.
  unfold prepareEnvironment, askForConfirmation, git_clone,
    git_checkoutRemoteBranch, getRandomTemporaryPath, log, runShellScript,
    readJSONFile_conf, writeFileSync.
  repeat first [ apply keeps_results_ret
               | apply keeps_results_call
               | apply keeps_results_if
               | apply keeps_results_bind; [| intro] ].
Qed.

End Calm.

(** ** Facts about objects *)

Section ObjectFacts.

Context {V : Type}.

Implicit Types (o : obj V) (v : V) (key : string).

Lemma obj_has_keys key o : obj_has key o = key_has key (obj_keys o).
Proof.
  unfold obj_has, key_has. induction o as [| [k v] o IH]; cbn; [reflexivity |].
  rewrite (String.eqb_sym key k).
  destruct (String.eqb k key); [reflexivity | exact IH].
Qed.

Lemma key_has_In key (keys : list string) : key_has key keys = true <-> In key keys.
Proof.
  unfold key_has. rewrite existsb_exists. split.
  - intros (k & Hin & E). apply String.eqb_eq in E. now subst.
  - intro Hin. exists key. split; [exact Hin | apply String.eqb_refl].
Qed.

Lemma obj_get_None key o : obj_get key o = None <-> ~ In key (obj_keys o).
Proof.
  pose proof (obj_has_keys key o) as H. unfold obj_has in H.
  rewrite <- key_has_In. destruct (obj_get key o); split; intro E;
    congruence.
Qed.

Lemma obj_keys_update key v o : obj_keys (obj_update key v o) = obj_keys o.
Proof.
  unfold obj_keys. induction o as [| [k v'] o IH]; cbn; [reflexivity |].
  destruct (String.eqb k key); cbn; [reflexivity | now rewrite IH].
Qed.

Lemma obj_keys_insert_index n key v o :
  obj_keys (obj_insert_index n key v o) = key_insert_index n key (obj_keys o).
Proof.
  unfold obj_keys.
  induction o as [| [k v'] o IH]; cbn [obj_insert_index key_insert_index map fst];
    [reflexivity |].
  destruct (array_index k) as [m |]; [| reflexivity].
  destruct (m <? n)%N; cbn [map fst]; [now rewrite IH | reflexivity].
Qed.

Lemma obj_keys_define key v o :
  obj_keys (obj_define key v o) = key_define key (obj_keys o).
Proof.
  unfold obj_define, key_define. rewrite obj_has_keys.
  destruct (key_has key (obj_keys o)); [apply obj_keys_update |].
  destruct (array_index key).
  - apply obj_keys_insert_index.
  - unfold obj_keys. now rewrite map_app.
Qed.

Lemma obj_get_update key key' v o :
  obj_get key o <> None ->
  obj_get key' (obj_update key v o)
  = if String.eqb key key' then Some v else obj_get key' o.
Proof.
  induction o as [| [k v'] o IH]; cbn; [congruence |].
  destruct (String.eqb_spec k key) as [-> | Hk]; cbn; intro H.
  - now destruct (String.eqb key key').
  - rewrite (IH H).
    destruct (String.eqb_spec k key') as [-> | Hk']; [| reflexivity].
    destruct (String.eqb_spec key key'); [congruence | reflexivity].
Qed.

Lemma obj_get_app key' o1 o2 :
  obj_get key' (o1 ++ o2)%list
  = match obj_get key' o1 with Some v => Some v | None => obj_get key' o2 end.
Proof.
  induction o1 as [| [k v] o1 IH]; cbn; [reflexivity |].
  now destruct (String.eqb k key').
Qed.

Lemma obj_get_insert_index n key key' v o :
  obj_get key o = None ->
  obj_get key' (obj_insert_index n key v o)
  = if String.eqb key key' then Some v else obj_get key' o.
Proof.
  induction o as [| [k v'] o IH]; cbn [obj_insert_index obj_get]; [reflexivity |].
  destruct (String.eqb_spec k key) as [-> | Hk]; [discriminate |]. intro H.
  assert (E : obj_get key' ((key, v) :: (k, v') :: o)
              = if String.eqb key key' then Some v
                else if String.eqb k key' then Some v' else obj_get key' o)
    by reflexivity.
  destruct (array_index k) as [m |]; [| exact E].
  destruct (m <? n)%N; [| exact E].
  cbn [obj_get]. rewrite (IH H).
  destruct (String.eqb_spec k key') as [-> | Hk']; [| reflexivity].
  destruct (String.eqb_spec key key'); [congruence | reflexivity].
Qed.

(** Reading after [CreateDataProperty]. *)
Lemma obj_get_define key key' v o :
  obj_get key' (obj_define key v o)
  = if String.eqb key key' then Some v else obj_get key' o.
Proof.
  unfold obj_define, obj_has.
  destruct (obj_get key o) as [v0 |] eqn:E.
  - apply obj_get_update. congruence.
  - destruct (array_index key).
    + now apply obj_get_insert_index.
    + rewrite obj_get_app. cbn [obj_get].
      destruct (String.eqb_spec key key') as [<- | Hk].
      * now rewrite E.
      * now destruct (obj_get key' o).
Qed.

End ObjectFacts.

(** ** The order of keys *)

Lemma key_insert_index_permutation (n : N) (key : string) (keys : list string) :
  Permutation (key_insert_index n key keys) (key :: keys).
Proof.
  induction keys as [| k keys IH]; cbn; [reflexivity |].
  destruct (array_index k) as [m |]; [| reflexivity].
  destruct (m <? n)%N; [| reflexivity].
  rewrite IH. apply perm_swap.
Qed.

Lemma key_define_new (key : string) (keys : list string) :
  ~ In key keys -> Permutation (key_define key keys) (key :: keys).
Proof.
  intro Hnew. unfold key_define.
  destruct (key_has key keys) eqn:E; [apply key_has_In in E; contradiction |].
  destruct (array_index key).
  - apply key_insert_index_permutation.
  - symmetry. apply Permutation_cons_append.
Qed.

Lemma key_define_old (key : string) (keys : list string) :
  In key keys -> key_define key keys = keys.
Proof.
  intro Hin. unfold key_define. apply key_has_In in Hin. now rewrite Hin.
Qed.

Lemma key_define_plain (key : string) (keys : list string) :
  ~ In key keys -> array_index key = None ->
  key_define key keys = (keys ++ [key])%list.
Proof.
  intros Hnew Hplain. unfold key_define.
  destruct (key_has key keys) eqn:E; [apply key_has_In in E; contradiction |].
  now rewrite Hplain.
Qed.

Lemma key_define_NoDup (key : string) (keys : list string) :
  NoDup keys -> NoDup (key_define key keys).
Proof.
  intro Hnd. destruct (in_dec string_dec key keys) as [Hin | Hnew].
  - now rewrite key_define_old.
  - eapply Permutation_NoDup; [symmetry; now apply key_define_new |].
    now constructor.
Qed.

Lemma fold_key_define_NoDup (names keys : list string) :
  NoDup keys -> NoDup (fold_left (fun ks name => key_define name ks) names keys).
Proof.
  revert keys. induction names as [| name names IH]; intros keys Hnd; cbn.
  - exact Hnd.
  - apply IH. now apply key_define_NoDup.
Qed.

Lemma fold_key_define_permutation (names keys : list string) :
  NoDup (keys ++ names) ->
  Permutation (fold_left (fun ks name => key_define name ks) names keys)
              (keys ++ names).
Proof.
  revert keys. induction names as [| name names IH]; intros keys Hnd; cbn.
  - now rewrite app_nil_r.
  - assert (Hnew : ~ In name keys).
    { intro Hin. apply NoDup_remove_2 in Hnd. apply Hnd.
      apply in_or_app. now left. }
    assert (HP : Permutation (key_define name keys ++ names) (keys ++ name :: names)).
    { rewrite (key_define_new name keys Hnew). cbn.
      apply Permutation_middle. }
    rewrite IH; [exact HP |].
    eapply Permutation_NoDup; [symmetry; exact HP | exact Hnd].
Qed.

Lemma fold_key_define_plain (names keys : list string) :
  NoDup (keys ++ names) -> Forall (fun name => array_index name = None) names ->
  fold_left (fun ks name => key_define name ks) names keys = (keys ++ names)%list.
Proof.
  revert keys. induction names as [| name names IH]; intros keys Hnd Hplain; cbn.
  - now rewrite app_nil_r.
  - inversion Hplain as [| ? ? Hname Hnames]; subst.
    assert (Hnew : ~ In name keys).
    { intro Hin. apply NoDup_remove_2 in Hnd. apply Hnd.
      apply in_or_app. now left. }
    rewrite (key_define_plain name keys Hnew Hname).
    rewrite IH; [now rewrite <- app_assoc | | exact Hnames].
    now rewrite <- app_assoc.
Qed.

Lemma key_insert_index_app (n : N) (key : string) (indices plain : list string) :
  Forall (fun k => is_array_index k = true) indices ->
  Forall (fun k => is_array_index k = false) plain ->
  key_insert_index n key (indices ++ plain)
  = (key_insert_index n key indices ++ plain)%list.
Proof.
  intros Hi Hp. induction Hi as [| i indices Hidx _ IH]; cbn [app key_insert_index].
  - destruct Hp as [| p plain Hplain _]; [reflexivity |].
    cbn [key_insert_index]. unfold is_array_index in Hplain.
    now destruct (array_index p).
  - unfold is_array_index in Hidx.
    destruct (array_index i) as [m |]; [| discriminate].
    destruct (m <? n)%N; [now rewrite IH | reflexivity].
Qed.

Lemma key_insert_index_sorted (n : N) (key : string) (indices : list string) :
  array_index key = Some n ->
  Forall (fun k => is_array_index k = true) indices ->
  StronglySorted index_le indices ->
  StronglySorted index_le (key_insert_index n key indices).
Proof.
  intros Hkey Hi Hs.
  induction Hs as [| i indices Hs IH Hle]; cbn [key_insert_index].
  - repeat constructor.
  - inversion Hi as [| ? ? Hidx Hi']; subst. specialize (IH Hi').
    assert (Hv : index_value key = n) by (unfold index_value; now rewrite Hkey).
    assert (Hfirst : (index_value key <= index_value i)%N ->
                     StronglySorted index_le (key :: i :: indices)).
    { intro L. constructor; [now constructor |].
      constructor; [exact L |].
      eapply Forall_impl; [| exact Hle]. intros z Hz. unfold index_le in *.
      eapply N.le_trans; eassumption. }
    destruct (array_index i) as [m |] eqn:Ei.
    + assert (Hm : index_value i = m) by (unfold index_value; now rewrite Ei).
      destruct (m <? n)%N eqn:L.
      * apply N.ltb_lt in L. constructor; [exact IH |].
        eapply Permutation_Forall;
          [symmetry; apply key_insert_index_permutation |].
        constructor; [| exact Hle]. unfold index_le. rewrite Hm, Hv.
        now apply N.lt_le_incl.
      * apply N.ltb_ge in L. apply Hfirst. now rewrite Hm, Hv.
    + unfold is_array_index in Hidx. rewrite Ei in Hidx. discriminate.
Qed.

(** Keys created one by one: the array indices come first, in ascending
    order, and the other names follow in the order of their creation. *)
Lemma fold_key_define_split (names indices plain : list string) :
  NoDup ((indices ++ plain) ++ names) ->
  Forall (fun k => is_array_index k = true) indices ->
  Forall (fun k => is_array_index k = false) plain ->
  StronglySorted index_le indices ->
  exists indices',
    fold_left (fun ks name => key_define name ks) names (indices ++ plain)%list
    = (indices' ++ plain ++ filter (fun k => negb (is_array_index k)) names)%list
    /\ Permutation indices' (indices ++ filter is_array_index names)
    /\ StronglySorted index_le indices'.
Proof.
  revert indices plain.
  induction names as [| name names IH]; intros indices plain Hnd Hi Hp Hs;
    cbn [fold_left filter].
  - exists indices. now rewrite !app_nil_r.
  - assert (Hnew : ~ In name (indices ++ plain)).
    { intro Hin. apply NoDup_remove_2 in Hnd. apply Hnd.
      apply in_or_app. now left. }
    assert (Hfresh : key_has name (indices ++ plain) = false).
    { destruct (key_has name (indices ++ plain)) eqn:E; [| reflexivity].
      apply key_has_In in E. contradiction. }
    unfold key_define at 2. rewrite Hfresh.
    assert (Hidx : is_array_index name
                   = match array_index name with Some _ => true | None => false end)
      by reflexivity.
    destruct (array_index name) as [n |] eqn:En; rewrite Hidx; cbn [negb].
    + rewrite (key_insert_index_app n name indices plain Hi Hp).
      destruct (IH (key_insert_index n name indices) plain) as (indices' & E & HP & HS).
      * eapply Permutation_NoDup; [| exact Hnd]. symmetry.
        rewrite (key_insert_index_permutation n name indices).
        apply (Permutation_middle (indices ++ plain) names name).
      * eapply Permutation_Forall;
          [symmetry; apply key_insert_index_permutation |].
        constructor; [| exact Hi]. unfold is_array_index. now rewrite En.
      * exact Hp.
      * now apply key_insert_index_sorted.
      * exists indices'. split; [exact E |]. split; [| exact HS].
        rewrite HP, (key_insert_index_permutation n name indices). cbn.
        apply Permutation_middle.
    + rewrite <- app_assoc.
      destruct (IH indices (plain ++ [name])%list) as (indices' & E & HP & HS).
      * rewrite app_assoc. rewrite <- (app_assoc (indices ++ plain)). exact Hnd.
      * exact Hi.
      * apply Forall_app. split; [exact Hp |]. constructor; [| constructor].
        unfold is_array_index. now rewrite En.
      * exact Hs.
      * exists indices'. rewrite <- !app_assoc in E. cbn [app] in E.
        now split.
Qed.

Lemma js_key_order_split (names : list string) :
  NoDup names ->
  exists indices,
    js_key_order names
    = (indices ++ filter (fun k => negb (is_array_index k)) names)%list
    /\ Permutation indices (filter is_array_index names)
    /\ StronglySorted index_le indices.
Proof.
  intro Hnd.
  destruct (fold_key_define_split names [] []) as (indices & E & HP & HS);
    try constructor; [exact Hnd |].
  now exists indices.
Qed.

Lemma js_key_order_NoDup (names : list string) : NoDup (js_key_order names).
Proof. apply fold_key_define_NoDup. constructor. Qed.

Lemma js_key_order_permutation (names : list string) :
  NoDup names -> Permutation (js_key_order names) names.
Proof. intro H. now apply (fold_key_define_permutation names []). Qed.

Lemma js_key_order_plain (names : list string) :
  NoDup names -> Forall (fun name => array_index name = None) names ->
  js_key_order names = names.
Proof. intros H1 H2. now apply (fold_key_define_plain names []). Qed.

(** ** The results table *)

(** Recording a result changes the entry of its suite and branch only. *)
Lemma table_get_withSuiteResult (table : obj (obj WPPerformanceResults))
    (testSuite branch testSuite' branch' : string) (r : WPPerformanceResults) :
  table_get testSuite' branch' (withSuiteResult table testSuite branch r)
  = if (String.eqb testSuite testSuite' && String.eqb branch branch')%bool
    then Some r
    else table_get testSuite' branch' table.
Proof.
  unfold table_get, withSuiteResult. cbn [spread]. rewrite obj_get_define.
  destruct (String.eqb_spec testSuite testSuite') as [<- | Hs]; cbn [andb].
  - rewrite obj_get_define.
    destruct (String.eqb branch branch'); [reflexivity |].
    now destruct (obj_get testSuite table).
  - reflexivity.
Qed.

Lemma table_get_cycle_results (table : obj (obj WPPerformanceResults))
    (cycle : string * (WPPerformanceResults * WPPerformanceResults))
    (testSuite branch : string) :
  branch <> fst cycle ->
  table_get testSuite branch (cycle_results table cycle)
  = table_get testSuite branch table.
Proof.
  intro Hb. unfold cycle_results. rewrite !table_get_withSuiteResult.
  destruct (String.eqb_spec (fst cycle) branch) as [E | _]; [congruence |].
  now rewrite !andb_false_r.
Qed.

Lemma table_get_fold_cycle_results
    (cycles : list (string * (WPPerformanceResults * WPPerformanceResults)))
    (table : obj (obj WPPerformanceResults)) (testSuite branch : string) :
  ~ In branch (map fst cycles) ->
  table_get testSuite branch (fold_left cycle_results cycles table)
  = table_get testSuite branch table.
Proof.
  revert table. induction cycles as [| c cycles IH]; intros table Hb; cbn.
  - reflexivity.
  - cbn in Hb. rewrite IH by tauto.
    apply table_get_cycle_results. intro E. apply Hb. now left.
Qed.

Lemma cycle_results_shape (table : obj (obj WPPerformanceResults))
    (keys : list string)
    (cycle : string * (WPPerformanceResults * WPPerformanceResults)) :
  table_shape table keys ->
  table_shape (cycle_results table cycle) (key_define (fst cycle) keys).
Proof.
  destruct cycle as [branch [r1 r2]]. unfold cycle_results. cbn [fst snd].
  intros [[-> ->] | (by_post & by_site & -> & <- & E)]; right.
  - exists (obj_define branch r1 []), (obj_define branch r2 []).
    split; [reflexivity |]. now rewrite !obj_keys_define.
  - exists (obj_define branch r1 by_post), (obj_define branch r2 by_site).
    split; [reflexivity |]. rewrite !obj_keys_define. now rewrite E.
Qed.

Lemma fold_cycle_results_shape
    (cycles : list (string * (WPPerformanceResults * WPPerformanceResults)))
    (table : obj (obj WPPerformanceResults)) (keys : list string) :
  table_shape table keys ->
  table_shape (fold_left cycle_results cycles table)
              (fold_left (fun ks name => key_define name ks) (map fst cycles) keys).
Proof.
  revert table keys. induction cycles as [| c cycles IH]; intros table keys H; cbn.
  - exact H.
  - apply IH. now apply cycle_results_shape.
Qed.

Section Loop.

Variable w : collaborators.
Variables performanceTestDirectory environmentDirectory : string.

Lemma recordSuite_inversion (branch testSuite : string) (s s' : session) :
  recordSuite w branch performanceTestDirectory testSuite s = (s', inr tt) ->
  exists r, results s' = withSuiteResult (results s) testSuite branch r.
Proof.
  unfold recordSuite, bind, get_results, set_results.
  pose proof (runTestSuite_keeps_results w testSuite performanceTestDirectory s) as K.
  destruct (runTestSuite w testSuite performanceTestDirectory s) as [s1 [e | r]];
    [discriminate |].
  intro H. injection H as <-. now exists r.
Qed.

Lemma branchCycle_inversion (branch : string) (s s' : session) :
  branchCycle w performanceTestDirectory environmentDirectory branch s = (s', inr tt) ->
  exists r1 r2, results s' = cycle_results (results s) (branch, (r1, r2)).
Proof.
  unfold branchCycle. intro H.
  apply bind_inversion in H. destruct H as (s1 & [] & H1 & H).
  apply bind_inversion in H. destruct H as (s2 & [] & H2 & H).
  unfold testSuites in H. cbn [for_of] in H.
  apply bind_inversion in H. destruct H as (s3 & [] & H3 & H).
  apply bind_inversion in H. destruct H as (s4 & [] & H4 & H).
  injection H as <-.
  apply recordSuite_inversion in H3, H4.
  destruct H3 as [r1 E3], H4 as [r2 E4]. exists r1, r2.
  pose proof (setUpGitBranch_keeps_results w branch environmentDirectory s) as K1.
  rewrite H1 in K1. cbn [fst] in K1.
  assert (K2 : results s2 = results s1).
  { unfold log in H2. pose proof (keeps_results_call (Log
      [">> Running the test on the " ++ formats_success w branch ++ " branch"])
      (fun _ => Some tt) s1) as K. rewrite H2 in K. exact K. }
  unfold cycle_results. cbn [fst snd]. rewrite E4, E3, K2, K1. reflexivity.
Qed.

Lemma for_of_branchCycle_inversion (branches : list string) (s s' : session) :
  for_of branches (branchCycle w performanceTestDirectory environmentDirectory) s
  = (s', inr tt) ->
  exists cycles,
    map fst cycles = branches
    /\ results s' = fold_left cycle_results cycles (results s).
Proof.
  revert s. induction branches as [| branch branches IH]; intros s H; cbn [for_of] in H.
  - injection H as <-. now exists [].
  - apply bind_inversion in H. destruct H as (s1 & [] & H1 & H).
    apply branchCycle_inversion in H1. destruct H1 as (r1 & r2 & E1).
    apply IH in H. destruct H as (cycles & Ec & E).
    exists ((branch, (r1, r2)) :: cycles). cbn. split; [now rewrite Ec |].
    now rewrite E, E1.
Qed.

(** After a branch loop that succeeds, the table has the shape that the
    branches give it. *)
Lemma branchLoop_shape (branches : list string) (s s' : session) :
  branchLoop w branches performanceTestDirectory environmentDirectory s = (s', inr tt) ->
  table_shape (results s') (js_key_order branches).
Proof.
  unfold branchLoop. intro H.
  rewrite (bind_ok _ _ s (with_empty_results s) tt) in H by reflexivity.
  apply for_of_branchCycle_inversion in H. destruct H as (cycles & <- & ->).
  apply fold_cycle_results_shape. left. split; reflexivity.
Qed.

End Loop.

Lemma key_define_In (key name : string) (keys : list string) :
  In key (key_define name keys) -> key = name \/ In key keys.
Proof.
  destruct (in_dec string_dec name keys) as [Hin | Hnew].
  - rewrite key_define_old by exact Hin. now right.
  - intro H. eapply Permutation_in in H; [| now apply key_define_new].
    destruct H as [<- | H]; auto.
Qed.

Lemma fold_key_define_In (key : string) (names keys : list string) :
  In key (fold_left (fun ks name => key_define name ks) names keys) ->
  In key names \/ In key keys.
Proof.
  revert keys. induction names as [| name names IH]; intros keys H; cbn in *.
  - now right.
  - apply IH in H. destruct H as [H | H]; [tauto |].
    apply key_define_In in H. destruct H as [-> | H]; tauto.
Qed.

Lemma obj_get_present {V : Type} (key : string) (o : obj V) :
  obj_get key o <> None <-> In key (obj_keys o).
Proof.
  rewrite obj_get_None.
  destruct (in_dec string_dec key (obj_keys o)); tauto.
Qed.

Lemma table_shape_entry (table : obj (obj WPPerformanceResults))
    (keys : list string) (testSuite branch : string) :
  table_shape table keys ->
  table_get testSuite branch table <> None -> In branch keys.
Proof.
  unfold table_get.
  intros [[-> ->] | (by_post & by_site & -> & <- & E)]; cbn [obj_get].
  - congruence.
  - destruct (String.eqb "post-editor" testSuite).
    + intro H. now apply obj_get_present.
    + destruct (String.eqb "site-editor" testSuite); [| congruence].
      intro H. rewrite <- E. now apply obj_get_present.
Qed.

Lemma table_shape_present (table : obj (obj WPPerformanceResults))
    (keys : list string) (testSuite branch : string) :
  table_shape table keys -> In testSuite testSuites -> In branch keys ->
  table_get testSuite branch table <> None.
Proof.
  unfold table_get, testSuites.
  intros [[-> ->] | (by_post & by_site & -> & <- & E)] Hs Hb; [contradiction |].
  destruct Hs as [<- | [<- | []]].
  - change (obj_get branch by_post <> None). now apply obj_get_present.
  - change (obj_get branch by_site <> None). apply obj_get_present.
    now rewrite E.
Qed.

Lemma branches_or_trunk_cons (branches : list string) :
  branches_or_trunk branches <> [].
Proof. unfold branches_or_trunk. destruct branches; cbn; discriminate. Qed.

(** C5. Let the branch names be distinct, the empty list standing for
    [trunk] alone, and let the branch loop succeed.  The table then has the
    two suites, [post-editor] first, and each suite has exactly one entry for
    every branch; the branch keys come in input order when no branch name is
    an array index, and in general the array indices come first, in ascending
    numeric order, followed by the other names in input order.
    Results recorded for earlier branches are the same after the loop as
    when they were recorded, and recording a result changes no other entry;
    for the empty list each suite has the single key [trunk]. *)
Theorem results_table_after_branch_loop (w : collaborators)
    (branches : list string) (performanceTestDirectory environmentDirectory : string)
    (s s' : session) :
  NoDup (branches_or_trunk branches) ->
  branchLoop w (branches_or_trunk branches)
             performanceTestDirectory environmentDirectory s = (s', inr tt) ->
  (exists by_post by_site,
      results s' = [("post-editor", by_post); ("site-editor", by_site)]
      /\ obj_keys by_post = js_key_order (branches_or_trunk branches)
      /\ obj_keys by_site = js_key_order (branches_or_trunk branches))
  /\ NoDup (js_key_order (branches_or_trunk branches))
  /\ Permutation (js_key_order (branches_or_trunk branches))
                 (branches_or_trunk branches)
  /\ (forall testSuite branch,
         In testSuite testSuites -> In branch (branches_or_trunk branches) ->
         table_get testSuite branch (results s') <> None)
  /\ (Forall (fun branch => array_index branch = None) (branches_or_trunk branches) ->
      js_key_order (branches_or_trunk branches) = branches_or_trunk branches)
  /\ (exists indices,
         js_key_order (branches_or_trunk branches)
         = (indices ++ filter (fun branch => negb (is_array_index branch))
                              (branches_or_trunk branches))%list
         /\ Permutation indices
                        (filter is_array_index (branches_or_trunk branches))
         /\ StronglySorted index_le indices)
  /\ (branches = [] -> js_key_order (branches_or_trunk branches) = ["trunk"])
  /\ (forall earlier later s1,
         branches_or_trunk branches = (earlier ++ later)%list ->
         for_of earlier
                (branchCycle w performanceTestDirectory environmentDirectory)
                (with_empty_results s) = (s1, inr tt) ->
         forall testSuite branch,
           In branch earlier ->
           table_get testSuite branch (results s')
           = table_get testSuite branch (results s1))
  /\ (forall table testSuite branch r testSuite' branch',
         (testSuite', branch') <> (testSuite, branch) ->
         table_get testSuite' branch' (withSuiteResult table testSuite branch r)
         = table_get testSuite' branch' table).
Proof.
  intros Hnd Hloop.
  pose proof (branchLoop_shape _ _ _ _ _ _ Hloop) as Hshape.
  pose proof (js_key_order_permutation _ Hnd) as Hperm.
  split.
  { destruct Hshape as [[_ E] | H]; [| exact H].
    rewrite E in Hperm. apply Permutation_nil in Hperm.
    now apply branches_or_trunk_cons in Hperm. }
  split; [apply js_key_order_NoDup |].
  split; [exact Hperm |].
  split.
  { intros testSuite branch Hs Hb.
    eapply table_shape_present; [exact Hshape | exact Hs |].
    eapply Permutation_in; [symmetry; exact Hperm | exact Hb]. }
  split; [now apply js_key_order_plain |].
  split; [now apply js_key_order_split |].
  split; [intros ->; reflexivity |].
  split.
  - intros earlier later s1 Hsplit Hearlier testSuite branch Hin.
    unfold branchLoop in Hloop.
    rewrite (bind_ok _ _ s (with_empty_results s) tt) in Hloop by reflexivity.
    rewrite Hsplit, for_of_app in Hloop.
    rewrite (bind_ok _ _ _ _ _ Hearlier) in Hloop.
    apply for_of_branchCycle_inversion in Hloop.
    destruct Hloop as (cycles & Hc & ->).
    apply table_get_fold_cycle_results. rewrite Hc.
    rewrite Hsplit in Hnd. intro Hlater.
    revert Hin Hlater. clear - Hnd. induction earlier as [| b earlier IH]; cbn in *.
    + tauto.
    + inversion Hnd as [| ? ? Hb Hnd']; subst.
      intros [-> | Hin] Hlater; [| now apply IH].
      apply Hb. apply in_or_app. now right.
  - intros table testSuite branch r testSuite' branch' Hne.
    rewrite table_get_withSuiteResult.
    destruct (String.eqb_spec testSuite testSuite') as [-> | _]; [| reflexivity].
    destruct (String.eqb_spec branch branch') as [-> | _]; [| reflexivity].
    congruence.
Qed.

Lemma results_table_after_branch_loop_witness :
  exists by_post by_site,
    results (fst (branchLoop (sample_collaborators "") ["rc"; "trunk"]
                             "/tmp/perf" "/tmp/env" fresh_session))
    = [("post-editor", by_post); ("site-editor", by_site)]
    /\ obj_keys by_post = js_key_order ["rc"; "trunk"]
    /\ obj_keys by_site = js_key_order ["rc"; "trunk"].
Proof.
  apply (results_table_after_branch_loop (sample_collaborators "")
           ["rc"; "trunk"] "/tmp/perf" "/tmp/env" fresh_session).
  - repeat constructor; cbn; intuition discriminate.
  - vm_compute. reflexivity.
Defined.

(** The order of C5 fails for a branch whose name is an array index: with
    the branches [b] and [1], in this order, both suites enumerate [1] first. *)
Lemma input_order_counterexample :
  NoDup ["b"; "1"]
  /\ snd (runPerformanceTests (sample_collaborators "") ["b"; "1"]
                              (sample_options None) fresh_session) = inr tt
  /\ map (fun row => (fst row, obj_keys (snd row)))
         (results (fst (runPerformanceTests (sample_collaborators "") ["b"; "1"]
                                            (sample_options None) fresh_session)))
     = [("post-editor", ["1"; "b"]); ("site-editor", ["1"; "b"])]
  /\ map (fun row => (fst row, obj_keys (snd row)))
         (results (fst (runPerformanceTests (sample_collaborators "") ["b"; "1"]
                                            (sample_options None) fresh_session)))
     <> [("post-editor", ["b"; "1"]); ("site-editor", ["b"; "1"])].
Proof.
  split; [repeat constructor; cbn; intuition discriminate |].
  split; [vm_compute; reflexivity |].
  split; [vm_compute; reflexivity |].
  vm_compute. discriminate.
Qed.

(** ** Failures in the branch loop *)

Lemma appends_run {A : Type} (P : event -> Prop) (m : M A) (s s' : session)
    (r : exn + A) :
  appends P m -> m s = (s', r) ->
  exists evs, trace s' = (trace s ++ evs)%list /\ Forall P evs.
Proof. intros H E. specialize (H s). now rewrite E in H. Qed.

Lemma runPerformanceTests_unfold (w : collaborators) (branches : list string)
    (options : WPPerformanceCommandOptions) (s0 s : session)
    (performanceTestDirectory environmentDirectory : string) :
  prepareEnvironment w options s0
  = (s, inr (performanceTestDirectory, environmentDirectory)) ->
  runPerformanceTests w branches options s0
  = bind (branchLoop w (branches_or_trunk branches)
                     performanceTestDirectory environmentDirectory)
         (fun _ => bind (stopEnvironment w environmentDirectory)
                        (fun _ => report w)) s.
Proof.
  intro H. unfold runPerformanceTests.
  now rewrite (bind_ok _ _ _ _ _ H).
Qed.

(** A branch loop that fails ends the session there, and having made only
    calls that neither stop the environment nor display a table. *)
Lemma failed_loop_is_fatal (w : collaborators) (branches : list string)
    (options : WPPerformanceCommandOptions) (s0 s s1 : session)
    (performanceTestDirectory environmentDirectory : string) (e : exn) :
  prepareEnvironment w options s0
  = (s, inr (performanceTestDirectory, environmentDirectory)) ->
  branchLoop w (branches_or_trunk branches)
             performanceTestDirectory environmentDirectory s = (s1, inl e) ->
  runPerformanceTests w branches options s0 = (s1, inl e)
  /\ exists evs, trace s1 = (trace s0 ++ evs)%list /\ Forall calm evs.
Proof.
  intros Hprep Hloop. split.
  - rewrite (runPerformanceTests_unfold _ _ _ _ _ _ _ Hprep).
    now apply bind_failed.
  - destruct (appends_run _ _ _ _ _ (prepareEnvironment_calm w options) Hprep)
      as (evs1 & E1 & C1).
    destruct (appends_run _ _ _ _ _ (branchLoop_calm w _ _ _) Hloop)
      as (evs2 & E2 & C2).
    exists (evs1 ++ evs2)%list. rewrite E2, E1, app_assoc.
    split; [reflexivity | now apply Forall_app].
Qed.

(** C7. When the branches before [B] went through and [setUpGitBranch]
    fails for [B], the whole of [runPerformanceTests] fails with that error;
    the table is the one the earlier branches left, so it has no entry for
    [B] unless an earlier branch has the same name, and none for a later
    branch; and no call made by the session stops the environment or
    displays a table. *)
Theorem setUpGitBranch_failure_is_fatal (w : collaborators)
    (branches : list string) (options : WPPerformanceCommandOptions)
    (performanceTestDirectory environmentDirectory : string)
    (earlier later : list string) (B : string)
    (s0 s s1 s2 : session) (e : exn) :
  prepareEnvironment w options s0
  = (s, inr (performanceTestDirectory, environmentDirectory)) ->
  branches_or_trunk branches = (earlier ++ B :: later)%list ->
  for_of earlier (branchCycle w performanceTestDirectory environmentDirectory)
         (with_empty_results s) = (s1, inr tt) ->
  setUpGitBranch w B environmentDirectory s1 = (s2, inl e) ->
  runPerformanceTests w branches options s0 = (s2, inl e)
  /\ results s2 = results s1
  /\ (forall testSuite branch,
         table_get testSuite branch (results s2) <> None -> In branch earlier)
  /\ exists evs,
       trace s2 = (trace s0 ++ evs)%list
       /\ Forall calm evs
       /\ existsb is_stop evs = false.
Proof.
  intros Hprep Hsplit Hearlier HsetUp.
  assert (Hloop : branchLoop w (branches_or_trunk branches)
                    performanceTestDirectory environmentDirectory s = (s2, inl e)).
  { unfold branchLoop.
    rewrite (bind_ok _ _ s (with_empty_results s) tt) by reflexivity.
    rewrite Hsplit, for_of_app, (bind_ok _ _ _ _ _ Hearlier).
    cbn [for_of]. apply bind_failed. unfold branchCycle.
    now apply bind_failed. }
  assert (Hres : results s2 = results s1).
  { pose proof (setUpGitBranch_keeps_results w B environmentDirectory s1) as K.
    now rewrite HsetUp in K. }
  destruct (failed_loop_is_fatal _ _ _ _ _ _ _ _ _ Hprep Hloop)
    as (Hrun & evs & Etrace & Hcalm).
  split; [exact Hrun |]. split; [exact Hres |]. split.
  - intros testSuite branch Hentry. rewrite Hres in Hentry.
    apply for_of_branchCycle_inversion in Hearlier.
    destruct Hearlier as (cycles & Hc & Etable).
    assert (Hshape : table_shape (results s1) (js_key_order earlier)).
    { rewrite Etable, <- Hc. apply fold_cycle_results_shape.
      left. split; reflexivity. }
    pose proof (table_shape_entry _ _ _ _ Hshape Hentry) as Hin.
    apply fold_key_define_In in Hin. destruct Hin as [Hin | []]. exact Hin.
  - exists evs. split; [exact Etrace |]. split; [exact Hcalm |].
    clear - Hcalm. induction Hcalm as [| ev evs [Hs _] _ IH]; cbn.
    + reflexivity.
    + now rewrite Hs, IH.
Qed.

Lemma setUpGitBranch_failure_is_fatal_witness :
  runPerformanceTests (sample_collaborators "gone") ["trunk"; "gone"; "next"]
                      (sample_options None) fresh_session
  = (fst (setUpGitBranch (sample_collaborators "gone") "gone" "/tmp/env"
            (fst (for_of ["trunk"]
                    (branchCycle (sample_collaborators "gone") "/tmp/perf" "/tmp/env")
                    (with_empty_results
                       (fst (prepareEnvironment (sample_collaborators "gone")
                               (sample_options None) fresh_session)))))),
     inl (Rejected (GitCheckoutRemoteBranch "/tmp/env" "gone"))).
Proof.
  apply (setUpGitBranch_failure_is_fatal (sample_collaborators "gone")
           ["trunk"; "gone"; "next"] (sample_options None)
           "/tmp/perf" "/tmp/env" ["trunk"] ["next"] "gone" fresh_session
           (fst (prepareEnvironment (sample_collaborators "gone")
                   (sample_options None) fresh_session))
           (fst (for_of ["trunk"]
                   (branchCycle (sample_collaborators "gone") "/tmp/perf" "/tmp/env")
                   (with_empty_results
                      (fst (prepareEnvironment (sample_collaborators "gone")
                              (sample_options None) fresh_session)))))).
  - vm_compute. reflexivity.
  - reflexivity.
  - vm_compute. reflexivity.
  - vm_compute. reflexivity.
Defined.

(** ** The stop of the environment *)

Lemma calm_no_stop (evs : list event) : Forall calm evs -> existsb is_stop evs = false.
Proof.
  induction 1 as [| ev evs [Hs _] _ IH]; cbn; [reflexivity |].
  now rewrite Hs, IH.
Qed.

Lemma report_appends (w : collaborators) : appends (fun _ => True) (report w).
Proof.
  unfold report, log. apply appends_bind; [now apply appends_call | intros _].
  apply appends_for_of. intro testSuite. unfold reportSuite, log.
  apply appends_bind; [now apply appends_call | intros _].
  apply appends_bind; [apply appends_get_results | intro current].
  destruct (obj_get testSuite current); [| apply appends_throw].
  unfold console_table, writeFileSync.
  apply appends_bind; [now apply appends_call | intros _].
  now apply appends_call.
Qed.

(** C8, as amended.  Once the steps before the branch loop have succeeded,
    the stop of the environment is the next call after a branch loop that
    succeeds; a branch loop that fails ends the session without it. *)
Theorem stop_follows_successful_loop (w : collaborators)
    (branches : list string) (options : WPPerformanceCommandOptions)
    (performanceTestDirectory environmentDirectory : string)
    (s0 s s1 : session) (outcome : exn + unit) :
  prepareEnvironment w options s0
  = (s, inr (performanceTestDirectory, environmentDirectory)) ->
  branchLoop w (branches_or_trunk branches)
             performanceTestDirectory environmentDirectory s = (s1, outcome) ->
  match outcome with
  | inr _ =>
      exists rest,
        trace (fst (runPerformanceTests w branches options s0))
        = (trace s1
             ++ [Log [">> Stopping the WordPress environment"];
                 RunShellScript stopScript (Some environmentDirectory)]
             ++ rest)%list
  | inl e =>
      runPerformanceTests w branches options s0 = (s1, inl e)
      /\ exists evs,
           trace s1 = (trace s0 ++ evs)%list /\ existsb is_stop evs = false
  end.
Proof.
  intros Hprep Hloop. destruct outcome as [e | []].
  - destruct (failed_loop_is_fatal _ _ _ _ _ _ _ _ _ Hprep Hloop)
      as (Hrun & evs & Etrace & Hcalm).
    split; [exact Hrun |]. exists evs. split; [exact Etrace |].
    now apply calm_no_stop.
  - rewrite (runPerformanceTests_unfold _ _ _ _ _ _ _ Hprep).
    rewrite (bind_ok _ _ _ _ _ Hloop).
    unfold stopEnvironment, log, runShellScript.
    unfold bind at 2. unfold call at 1. cbn beta iota.
    unfold bind, call.
    cbn [trace record_call].
    destruct (when_ok (runShellScript_ok w _ stopScript (Some environmentDirectory)))
      as [[] |]; cbn [fst trace record_call].
    + match goal with
      | |- context [report w ?st] =>
          destruct (report_appends w st) as (rest & E & _)
      end.
      exists rest. rewrite E. cbn [trace record_call]. now rewrite <- !app_assoc.
    + exists []. now rewrite <- !app_assoc.
Qed.

Lemma stop_follows_successful_loop_witness :
  exists rest,
    trace (fst (runPerformanceTests (sample_collaborators "") []
                                    (sample_options None) fresh_session))
    = (trace (fst (branchLoop (sample_collaborators "") ["trunk"]
                              "/tmp/perf" "/tmp/env"
                              (fst (prepareEnvironment (sample_collaborators "")
                                      (sample_options None) fresh_session))))
         ++ [Log [">> Stopping the WordPress environment"];
             RunShellScript stopScript (Some "/tmp/env")]
         ++ rest)%list.
Proof.
  apply (stop_follows_successful_loop (sample_collaborators "") []
           (sample_options None) "/tmp/perf" "/tmp/env" fresh_session
           (fst (prepareEnvironment (sample_collaborators "")
                   (sample_options None) fresh_session))
           (fst (branchLoop (sample_collaborators "") ["trunk"]
                            "/tmp/perf" "/tmp/env"
                            (fst (prepareEnvironment (sample_collaborators "")
                                    (sample_options None) fresh_session))))
           (inr tt)).
  - vm_compute. reflexivity.
  - vm_compute. reflexivity.
Defined.

(** C8 as stated fails: here the steps before the branch loop succeed, the
    checkout of [trunk] fails inside the loop, and the session ends without
    any call that stops the environment. *)
Lemma stop_not_unconditional :
  snd (prepareEnvironment (sample_collaborators "trunk")
                          (sample_options None) fresh_session)
  = inr ("/tmp/perf", "/tmp/env")
  /\ snd (runPerformanceTests (sample_collaborators "trunk") []
                              (sample_options None) fresh_session)
     = inl (Rejected (GitCheckoutRemoteBranch "/tmp/env" "trunk"))
  /\ existsb is_stop
       (trace (fst (runPerformanceTests (sample_collaborators "trunk") []
                                        (sample_options None) fresh_session)))
     = false.
Proof. repeat split; vm_compute; reflexivity. Qed.

(** ** The transposed table *)

Lemma metric_keys_NoDup : NoDup metric_keys.
Proof.
  unfold metric_keys.
  repeat (constructor;
          [cbn [In]; intro H;
           repeat (destruct H as [H | H]; [discriminate H |]); exact H |]).
  constructor.
Qed.

Lemma perf_entries_keys {A : Type} (r : perf A) :
  obj_keys (perf_entries r) = metric_keys.
Proof. reflexivity. Qed.

Lemma fold_left_cons {A B : Type} (f : A -> B -> A) (x : B) (rest : list B) (acc : A) :
  fold_left f (x :: rest) acc = fold_left f rest (f acc x).
Proof. reflexivity. Qed.

Section Invert.

Variable w : collaborators.

Lemma table_get_invertEntry (key entry metric branch : string) (value : number)
    (acc : obj (obj string)) :
  table_get metric branch (invertEntry w key acc (entry, value))
  = if (String.eqb entry metric && String.eqb key branch && shown key value)%bool
    then Some (number_toString w value ++ " ms")
    else table_get metric branch acc.
Proof.
  unfold invertEntry, shown. cbn [fst snd].
  set (acc' := if obj_has entry acc then acc else obj_define entry [] acc).
  assert (Hsame : table_get metric branch acc' = table_get metric branch acc).
  { unfold acc', obj_has, table_get.
    destruct (obj_get entry acc) eqn:E; [reflexivity |].
    rewrite obj_get_define.
    destruct (String.eqb_spec entry metric) as [<- | _]; [| reflexivity].
    now rewrite E. }
  assert (Hrow : obj_get entry acc' <> None).
  { unfold acc', obj_has.
    destruct (obj_get entry acc) eqn:E; [congruence |].
    rewrite obj_get_define, String.eqb_refl. discriminate. }
  destruct (isFinite value); cbn [andb];
    [| now rewrite andb_false_r, Hsame].
  destruct (obj_get entry acc') as [row |] eqn:E; [| congruence].
  unfold table_get at 1. rewrite obj_get_update by congruence.
  rewrite <- Hsame. unfold table_get.
  destruct (String.eqb_spec entry metric) as [<- | _]; cbn [andb]; [| reflexivity].
  rewrite E. unfold obj_assign_primitive.
  destruct (String.eqb key "__proto__"); cbn [negb];
    [now rewrite andb_false_r |].
  rewrite obj_get_define, andb_true_r. reflexivity.
Qed.

Lemma table_get_invert_branch (key metric branch : string)
    (entries : obj number) (acc : obj (obj string)) :
  NoDup (obj_keys entries) ->
  table_get metric branch (fold_left (invertEntry w key) entries acc)
  = match obj_get metric entries with
    | Some value =>
        if (String.eqb key branch && shown key value)%bool
        then Some (number_toString w value ++ " ms")
        else table_get metric branch acc
    | None => table_get metric branch acc
    end.
Proof.
  revert acc. induction entries as [| [entry value] entries IH]; intros acc Hnd;
    cbn [fold_left obj_get].
  - reflexivity.
  - cbn in Hnd. inversion Hnd as [| ? ? Hnew Hnd']; subst.
    rewrite (IH _ Hnd'), table_get_invertEntry.
    destruct (String.eqb_spec entry metric) as [<- | _]; cbn [andb].
    + apply obj_get_None in Hnew. rewrite Hnew. reflexivity.
    + reflexivity.
Qed.

Lemma table_get_invert_from (by_branch : obj WPPerformanceResults)
    (metric branch : string) (acc : obj (obj string)) :
  NoDup (obj_keys by_branch) ->
  table_get metric branch
    (fold_left
       (fun acc key_val =>
          fold_left (invertEntry w (fst key_val)) (perf_entries (snd key_val)) acc)
       by_branch acc)
  = match obj_get branch by_branch with
    | Some r =>
        match perf_get metric r with
        | Some value =>
            if shown branch value
            then Some (number_toString w value ++ " ms")
            else table_get metric branch acc
        | None => table_get metric branch acc
        end
    | None => table_get metric branch acc
    end.
Proof.
  revert acc. induction by_branch as [| [key r] rest IH]; intros acc Hnd.
  - reflexivity.
  - inversion Hnd as [| ? ? Hnew Hnd']; subst.
    rewrite fold_left_cons, (IH _ Hnd').
    cbv beta. cbn [fst snd].
    rewrite (table_get_invert_branch key metric branch (perf_entries r) acc)
      by apply metric_keys_NoDup.
    cbn [obj_get]. unfold perf_get at 2.
    destruct (String.eqb_spec key branch) as [<- | _]; cbn [andb].
    + apply obj_get_None in Hnew. rewrite Hnew. reflexivity.
    + destruct (obj_get metric (perf_entries r)); reflexivity.
Qed.

(** What [invertedResult] holds at a metric and a branch. *)
Lemma table_get_invert (by_branch : obj WPPerformanceResults)
    (metric branch : string) :
  NoDup (obj_keys by_branch) ->
  table_get metric branch (invert w by_branch)
  = match obj_get branch by_branch with
    | Some r =>
        match perf_get metric r with
        | Some value =>
            if shown branch value
            then Some (number_toString w value ++ " ms")
            else None
        | None => None
        end
    | None => None
    end.
Proof.
  intro Hnd. unfold invert.
  exact (table_get_invert_from by_branch metric branch [] Hnd).
Qed.

End Invert.

(** ** The report *)

Section Report.

Variable w : collaborators.

Lemma reportSuite_inversion (testSuite : string) (s s' : session) :
  reportSuite w testSuite s = (s', inr tt) ->
  results s' = results s
  /\ exists by_branch,
       obj_get testSuite (results s) = Some by_branch
       /\ trace s'
          = (trace s
               ++ [Log [(LF ++ ">> " ++ testSuite ++ LF)%string];
                   ConsoleTable (invert w by_branch);
                   WriteFileSync (resultsPath w testSuite) (json_of_suite by_branch)])%list.
Proof.
  unfold reportSuite, log, get_results, bind, call at 1.
  cbn [trace results record_call].
  destruct (obj_get testSuite (results s)) as [by_branch |]; [| discriminate].
  unfold console_table, writeFileSync, bind, call.
  cbn [trace results record_call].
  destruct (when_ok (writeFileSync_ok w _ _ _)) as [[] |]; [| discriminate].
  intro H. injection H as <-. cbn [trace results record_call].
  split; [reflexivity |]. exists by_branch. split; [reflexivity |].
  now rewrite <- !app_assoc.
Qed.

Lemma report_inversion (s s' : session) :
  report w s = (s', inr tt) ->
  results s' = results s
  /\ forall testSuite, In testSuite testSuites ->
       exists by_branch,
         obj_get testSuite (results s) = Some by_branch
         /\ In (ConsoleTable (invert w by_branch)) (trace s')
         /\ In (WriteFileSync (resultsPath w testSuite) (json_of_suite by_branch))
               (trace s').
Proof.
  unfold report, testSuites. cbn [for_of]. intro H.
  apply bind_inversion in H. destruct H as (s1 & [] & H1 & H).
  apply bind_inversion in H. destruct H as (s2 & [] & H2 & H).
  apply bind_inversion in H. destruct H as (s3 & [] & H3 & H).
  injection H as <-.
  assert (K1 : results s1 = results s).
  { unfold log in H1.
    pose proof (keeps_results_call (Log [(LF ++ ">> 🎉 Results." ++ LF)%string])
                  (fun _ => Some tt) s) as K.
    now rewrite H1 in K. }
  apply reportSuite_inversion in H2, H3.
  destruct H2 as (K2 & post & Gp & Tp), H3 as (K3 & site & Gs & Ts).
  split; [now rewrite K3, K2 |].
  intros testSuite [<- | [<- | []]].
  - exists post. rewrite <- K1. split; [exact Gp |].
    rewrite Ts, Tp. split; apply in_or_app; left; apply in_or_app; right;
      cbn; tauto.
  - exists site. rewrite <- K1, <- K2. split; [exact Gs |].
    rewrite Ts. split; apply in_or_app; right; cbn; tauto.
Qed.

Lemma stopEnvironment_keeps_results (environmentDirectory : string) :
  keeps_results (stopEnvironment w environmentDirectory).
Proof.
  unfold stopEnvironment, log, runShellScript.
  apply keeps_results_bind; [apply keeps_results_call | intros _].
  apply keeps_results_call.
Qed.

(** A session that completes has shown and written, for each suite, the
    entry of the table for that suite, whose branch keys are distinct. *)
Lemma completed_run (branches : list string)
    (options : WPPerformanceCommandOptions) (s0 s' : session) :
  runPerformanceTests w branches options s0 = (s', inr tt) ->
  forall testSuite, In testSuite testSuites ->
    exists by_branch,
      obj_get testSuite (results s') = Some by_branch
      /\ NoDup (obj_keys by_branch)
      /\ In (ConsoleTable (invert w by_branch)) (trace s')
      /\ In (WriteFileSync (resultsPath w testSuite) (json_of_suite by_branch))
            (trace s').
Proof.
  intros H testSuite Hsuite. unfold runPerformanceTests in H.
  apply bind_inversion in H. destruct H as (s1 & [perf env] & H1 & H).
  cbn [fst snd] in H.
  apply bind_inversion in H. destruct H as (s2 & [] & H2 & H).
  apply bind_inversion in H. destruct H as (s3 & [] & H3 & H).
  apply report_inversion in H. destruct H as (K & Hreport).
  pose proof (stopEnvironment_keeps_results env s2) as K3.
  rewrite H3 in K3. cbn [fst] in K3.
  destruct (Hreport testSuite Hsuite) as (by_branch & G & Ht & Hw).
  exists by_branch. rewrite K. split; [exact G |]. split; [| now split].
  apply branchLoop_shape in H2. rewrite K3 in G.
  destruct H2 as [[E _] | (post & site & E & Kp & Ks)]; rewrite E in G.
  - discriminate.
  - destruct Hsuite as [<- | [<- | []]]; cbn in G; injection G as <-.
    + rewrite Kp. apply js_key_order_NoDup.
    + rewrite Ks. apply js_key_order_NoDup.
Qed.

End Report.

Lemma obj_get_map_values {A B : Type} (f : A -> B) (key : string) (o : obj A) :
  obj_get key (map (fun kv => (fst kv, f (snd kv))) o)
  = option_map f (obj_get key o).
Proof.
  induction o as [| [k v] o IH]; cbn; [reflexivity |].
  now destruct (String.eqb k key).
Qed.

Lemma obj_keys_map_values {A B : Type} (f : A -> B) (o : obj A) :
  obj_keys (map (fun kv => (fst kv, f (snd kv))) o) = obj_keys o.
Proof. unfold obj_keys. rewrite map_map. reflexivity. Qed.

(** The value handed to [JSON.stringify] keeps every branch and, for each
    branch, every metric; a value that is not finite is written as [null]. *)
Lemma json_of_suite_complete (by_branch : obj WPPerformanceResults) :
  exists written,
    json_of_suite by_branch = JObject written
    /\ obj_keys written = obj_keys by_branch
    /\ forall branch r,
         obj_get branch by_branch = Some r ->
         exists fields,
           obj_get branch written = Some (JObject fields)
           /\ obj_keys fields = metric_keys
           /\ forall metric v,
                perf_get metric r = Some v ->
                obj_get metric fields
                = Some (if isFinite v then JNumber v else JNull).
Proof.
  eexists. split; [reflexivity |]. split; [apply obj_keys_map_values |].
  intros branch r Hr. rewrite obj_get_map_values, Hr. cbn [option_map].
  eexists. split; [reflexivity |]. split; [apply obj_keys_map_values |].
  intros metric v Hv. unfold perf_get in Hv.
  now rewrite obj_get_map_values, Hv.
Qed.




(** ** The documented case of the version pattern *)

Lemma append_assoc (a b c : string) : (a ++ b) ++ c = a ++ (b ++ c).
Proof. induction a as [| x a IH]; cbn; [reflexivity | now rewrite IH]. Qed.

Lemma append_empty_r (a : string) : a ++ "" = a.
Proof. induction a as [| x a IH]; cbn; [reflexivity | now rewrite IH]. Qed.

(** The greedy [\d+] followed by the rest of the pattern: when the digits
    [ds] are followed by a dot and the rest of the pattern accepts what
    follows them, all of [ds] are taken. *)
Lemma digits_then_greedy {R : Type} (ds taken after : string)
    (rest_of_pattern : string -> string -> option R) (r : R) :
  ds <> "" -> all_digits ds ->
  rest_of_pattern (taken ++ ds) (String "." after) = Some r ->
  digits_then (ds ++ String "." after) taken rest_of_pattern = Some r.
Proof.
  revert taken. induction ds as [| c ds IH]; intros taken Hne Hd Hk;
    [congruence |].
  unfold all_digits in Hd. cbn in Hd. inversion Hd as [| ? ? Hc Hds]; subst.
  cbn [append digits_then]. rewrite Hc.
  destruct ds as [| c' ds].
  - cbn [append digits_then]. change (is_digit ".") with false. cbn iota.
    exact Hk.
  - rewrite (IH (taken ++ String c "")); [reflexivity | discriminate | exact Hds |].
    now rewrite append_assoc.
Qed.

(** A version [major.minor.0] is remapped to [major.minor]. *)
Lemma zipVersion_of_patch_zero (major minor : string) :
  major <> "" -> minor <> "" -> all_digits major -> all_digits minor ->
  zipVersion_of (major ++ "." ++ minor ++ ".0") = major ++ "." ++ minor.
Proof.
  intros Hmajor Hminor Dmajor Dminor. unfold zipVersion_of, match_version.
  change (major ++ "." ++ minor ++ ".0")
    with (major ++ String "." (minor ++ String "." "0")).
  erewrite (digits_then_greedy major "" (minor ++ String "." "0"));
    [ | exact Hmajor | exact Dmajor | ].
  2:{ cbn [append].
      apply (digits_then_greedy minor "" "0"); [exact Hminor | exact Dminor |].
      cbn [append is_line_terminator]. reflexivity. }
  cbn [append]. now rewrite append_empty_r.
Qed.

(** * Further properties of the code *)

(** ** The median *)

Lemma sort_of_permutation (a b : list number) :
  Forall not_NaN a -> Permutation a b -> sort minus a = sort minus b.
Proof.
  intros Ha HP.
  assert (Hb : Forall not_NaN b) by (eapply Permutation_Forall; eassumption).
  apply sorted_unique; [now apply sort_sorted | now apply sort_sorted |].
  rewrite (sort_permutation minus a), (sort_permutation minus b). exact HP.
Qed.

(** X1. The median does not depend on the order of the array, as long as no
    element is [NaN]. *)
Theorem median_permutation (a b : list number) :
  Forall not_NaN a -> Permutation a b -> median a = median b.
Proof.
  intros Ha HP.
  pose proof (median_unfold a) as Ea. pose proof (median_unfold b) as Eb.
  cbn zeta in Ea, Eb.
  rewrite Ea, Eb, (sort_of_permutation a b Ha HP), (Permutation_length HP).
  reflexivity.
Qed.

Lemma median_permutation_witness :
  median [of_Z 7; Infinity; of_Z 2] = median [of_Z 2; of_Z 7; Infinity].
Proof.
  apply median_permutation.
  - repeat constructor; discriminate.
  - apply perm_trans with [of_Z 7; of_Z 2; Infinity].
    + apply perm_skip, perm_swap.
    + apply perm_swap.
Defined.

Lemma Qc_two_nonzero : Qc_eqb (Qc_of_Z 2) 0 = false.
Proof. reflexivity. Qed.

Lemma half_sum_finite (x y : Qc) :
  num_div (num_add (Fin x) (Fin y)) (of_Z 2) = Fin ((x + y) / Qc_of_Z 2)%Qc.
Proof. unfold of_Z. cbn [num_add num_div]. now rewrite Qc_two_nonzero. Qed.

Lemma Qc_half_sum_bounds (lo hi x y : Qc) :
  (lo <= x)%Qc -> (lo <= y)%Qc -> (x <= hi)%Qc -> (y <= hi)%Qc ->
  (lo <= (x + y) / Qc_of_Z 2)%Qc /\ ((x + y) / Qc_of_Z 2 <= hi)%Qc.
Proof.
  intros H1 H2 H3 H4.
  assert (E : (this ((x + y) / Qc_of_Z 2)%Qc == (this x + this y) * (1 # 2))%Q).
  { unfold Qcdiv, Qcmult, Qcinv, Qcplus, Qc_of_Z, Q2Qc. cbn [this].
    rewrite !Qred_correct. reflexivity. }
  unfold Qcle in *. rewrite E. clear E.
  split; lra.
Qed.

Lemma nth_In_default (l : list number) (n : nat) :
  (n < List.length l)%nat -> In (nth n l NaN) l.
Proof. intro H. now apply nth_In. Qed.



(** ** The reduction of the repeated runs *)

Lemma sorts_after_self (v : number) : sorts_after minus v v = false.
Proof.
  unfold sorts_after, num_sub. destruct v; try reflexivity.
  cbn [num_neg num_add of_Z num_ltb]. rewrite Qcplus_opp_r. reflexivity.
Qed.

Lemma median_of_three_equal (v : number) : median [v; v; v] = v.
Proof.
  unfold median, length_of, sort. cbn [List.length fold_right insert].
  rewrite !sorts_after_self. cbn [insert]. rewrite !sorts_after_self.
  reflexivity.
Qed.

(** X3. When the three runs of a suite give the same curated result, the
    suite result is that curated result, each value rounded by [formatTime],
    also where the values are not finite. *)
Theorem suiteMedians_identical_runs (c : WPPerformanceResults) :
  suiteMedians [c; c; c] = mapValues c formatTime.
Proof.
  unfold suiteMedians, mapValues. cbn [map load type minType maxType focus
    minFocus maxFocus inserterOpen minInserterOpen maxInserterOpen inserterHover
    minInserterHover maxInserterHover].
  now rewrite !median_of_three_equal.
Qed.

Lemma perf_all_fields {A : Type} (P : A -> Prop) (o : perf A) :
  perf_all P o ->
  P (load o) /\ P (type o) /\ P (minType o) /\ P (maxType o)
  /\ P (focus o) /\ P (minFocus o) /\ P (maxFocus o)
  /\ P (inserterOpen o) /\ P (minInserterOpen o) /\ P (maxInserterOpen o)
  /\ P (inserterHover o) /\ P (minInserterHover o) /\ P (maxInserterHover o).
Proof.
  unfold perf_all. cbn [perf_entries map snd]. intro H.
  repeat match goal with
         | H : Forall _ (_ :: _) |- _ => inversion H; clear H; subst
         end.
  tauto.
Qed.

Lemma median_of_field (field : WPPerformanceResults -> number)
    (l1 l2 : list WPPerformanceResults) :
  Forall (fun c => not_NaN (field c)) l1 -> Permutation l1 l2 ->
  median (map field l1) = median (map field l2).
Proof.
  intros H HP.
  assert (Hm : Forall not_NaN (map field l1)) by now apply Forall_map.
  pose proof (Permutation_map field HP) as HPm.
  pose proof (median_unfold (map field l1)) as E1.
  pose proof (median_unfold (map field l2)) as E2.
  cbn zeta in E1, E2.
  rewrite E1, E2, (sort_of_permutation _ _ Hm HPm), (Permutation_length HPm).
  reflexivity.
Qed.

(** X4. The result of a suite does not depend on the order in which the
    repeated runs come, as long as no curated value is [NaN]. *)
Theorem suiteMedians_order_of_runs (l1 l2 : list WPPerformanceResults) :
  Forall (perf_all not_NaN) l1 -> Permutation l1 l2 ->
  suiteMedians l1 = suiteMedians l2.
Proof.
  intros H HP. unfold suiteMedians, mapValues. cbn [load type minType maxType
    focus minFocus maxFocus inserterOpen minInserterOpen maxInserterOpen
    inserterHover minInserterHover maxInserterHover].
  assert (F : forall field : WPPerformanceResults -> number,
             (forall c, perf_all not_NaN c -> not_NaN (field c)) ->
             median (map field l1) = median (map field l2)).
  { intros field Hf. apply median_of_field; [| exact HP].
    eapply Forall_impl; [| exact H]. exact Hf. }
  f_equal; apply f_equal; apply F; intros c Hc;
    apply perf_all_fields in Hc; tauto.
Qed.

Lemma suiteMedians_order_of_runs_witness :
  suiteMedians [curateResults (raw_sample [Qc_of_Z 2] [0%Qc; 1%Qc] [1%Qc] [1%Qc] [1%Qc]);
                curateResults (raw_sample [1%Qc] [1%Qc] [1%Qc] [1%Qc] [1%Qc])]
  = suiteMedians [curateResults (raw_sample [1%Qc] [1%Qc] [1%Qc] [1%Qc] [1%Qc]);
                  curateResults (raw_sample [Qc_of_Z 2] [0%Qc; 1%Qc] [1%Qc] [1%Qc] [1%Qc])].
Proof.
  apply suiteMedians_order_of_runs.
  - unfold perf_all. cbn [perf_entries map snd].
    repeat constructor; intro E; vm_compute in E; discriminate E.
  - apply perm_swap.
Defined.

(** ** More on rounding *)

Lemma Qfloor_unique (x : Q) (k : Z) :
  (inject_Z k <= x)%Q -> (x < inject_Z (k + 1))%Q -> Qfloor x = k.
Proof.
  intros Hle Hlt.
  pose proof (Qfloor_resp_le _ _ Hle) as H1. rewrite Qfloor_Z in H1.
  pose proof (Qfloor_le x) as H2.
  assert (H3 : (inject_Z (Qfloor x) < inject_Z (k + 1))%Q)
    by (eapply Qle_lt_trans; eassumption).
  rewrite <- Zlt_Qlt in H3. lia.
Qed.

Lemma round_of_hundredths (k : Z) :
  Qfloor ((Qc_of_Z k / Qc_of_Z 100) * Qc_of_Z 100 + Qc_half)%Qc = k.
Proof.
  apply Qfloor_unique.
  - unfold Qcdiv, Qcmult, Qcinv, Qcplus, Qc_of_Z, Qc_half, Q2Qc. cbn [this].
    rewrite !Qred_correct.
    change (/ inject_Z 100)%Q with (1 # 100)%Q.
    change (inject_Z 100) with (100 # 1)%Q. lra.
  - rewrite inject_Z_plus.
    unfold Qcdiv, Qcmult, Qcinv, Qcplus, Qc_of_Z, Qc_half, Q2Qc. cbn [this].
    rewrite !Qred_correct.
    change (/ inject_Z 100)%Q with (1 # 100)%Q.
    change (inject_Z 100) with (100 # 1)%Q.
    change (inject_Z 1) with (1 # 1)%Q. lra.
Qed.

Lemma formatTime_of_hundredths (k : Z) :
  formatTime (Fin (Qc_of_Z k / Qc_of_Z 100)%Qc) = Fin (Qc_of_Z k / Qc_of_Z 100)%Qc.
Proof. now rewrite formatTime_finite, round_of_hundredths. Qed.


Lemma Qc_of_Z_le (a b : Z) : (a <= b)%Z -> (Qc_of_Z a <= Qc_of_Z b)%Qc.
Proof.
  intro H. unfold Qcle. rewrite !Qc_of_Z_value. now rewrite <- Zle_Qle.
Qed.

(** X6. [formatTime] is monotone: it never reverses the order of two
    values. *)
Theorem formatTime_monotone (x y : number) :
  num_le x y -> num_le (formatTime x) (formatTime y).
Proof.
  destruct x as [| | p |], y as [| | q |]; cbn [num_le]; try tauto;
    try (intros _; rewrite ?formatTime_finite; exact I).
  intro H. rewrite !formatTime_finite. cbn [num_le].
  assert (Hk : (Qfloor (p * Qc_of_Z 100 + Qc_half)%Qc
                <= Qfloor (q * Qc_of_Z 100 + Qc_half)%Qc)%Z).
  { apply Qfloor_resp_le.
    unfold Qcle, Qcmult, Qcplus, Qc_of_Z, Qc_half, Q2Qc in *. cbn [this] in *.
    rewrite !Qred_correct. change (inject_Z 100) with (100 # 1)%Q. lra. }
  apply Qc_of_Z_le in Hk.
  unfold Qcdiv. apply Qcmult_le_compat_r; [exact Hk |].
  unfold Qcle. cbn. discriminate.
Qed.

Lemma formatTime_monotone_witness :
  num_le (formatTime (Fin (Q2Qc (12344 # 1000)))) (formatTime (Fin (Q2Qc (12346 # 1000)))).
Proof.
  apply formatTime_monotone. cbn [num_le]. unfold Qcle. cbn. discriminate.
Defined.

(** ** More on the version pattern *)

Lemma all_digits_cons (c : ascii) (ds : string) :
  is_digit c = true -> all_digits ds -> all_digits (String c ds).
Proof. intros Hc Hds. unfold all_digits. cbn. now constructor. Qed.

Lemma all_digits_nil : all_digits "".
Proof. constructor. Qed.

(** What the greedy [\d+] hands to the rest of the pattern is a non-empty
    run of digits taken from the start of the input. *)
Lemma digits_then_sound {R : Type} (input taken : string)
    (rest_of_pattern : string -> string -> option R) (r : R) :
  digits_then input taken rest_of_pattern = Some r ->
  exists ds after,
    ds <> "" /\ all_digits ds /\ input = ds ++ after
    /\ rest_of_pattern (taken ++ ds) after = Some r.
Proof.
  revert taken. induction input as [| c input IH]; intros taken H;
    cbn [digits_then] in H; [discriminate |].
  destruct (is_digit c) eqn:Hc; [| discriminate].
  destruct (digits_then input (taken ++ String c "") rest_of_pattern) eqn:E.
  - injection H as ->. apply IH in E.
    destruct E as (ds & after & Hne & Hd & -> & Hk).
    exists (String c ds), after. rewrite append_assoc in Hk.
    repeat split; [discriminate | now apply all_digits_cons | exact Hk].
  - exists (String c ""), input.
    repeat split; [discriminate | | exact H].
    apply all_digits_cons; [exact Hc | apply all_digits_nil].
Qed.

Lemma match_version_sound (version group1 after : string) :
  match_version version = Some (group1, after) ->
  exists major minor c,
    major <> "" /\ minor <> "" /\ all_digits major /\ all_digits minor
    /\ is_line_terminator c = false
    /\ version = major ++ "." ++ minor ++ String c (String "0" after)
    /\ group1 = major ++ "." ++ minor.
Proof.
  unfold match_version. intro H.
  apply digits_then_sound in H.
  destruct H as (major & after_major & Hmajor & Dmajor & -> & H).
  cbn [append] in H.
  destruct after_major as [| dot after_dot]; [discriminate |].
  destruct (Ascii.eqb_spec dot ".") as [-> | Hdot].
  2:{ exfalso. revert H.
      destruct dot as [[] [] [] [] [] [] [] []]; try discriminate;
        now contradiction Hdot. }
  apply digits_then_sound in H.
  destruct H as (minor & after_minor & Hminor & Dminor & -> & H).
  cbn [append] in H.
  destruct after_minor as [| c [| zero after_match]]; try discriminate.
  destruct (Ascii.eqb_spec zero "0") as [-> | Hzero].
  2:{ exfalso. revert H.
      destruct zero as [[] [] [] [] [] [] [] []]; try discriminate;
        now contradiction Hzero. }
  destruct (is_line_terminator c) eqn:Hc; [discriminate |].
  injection H as <- <-.
  exists major, minor, c. repeat split; assumption.
Qed.

(** X8. The remapping either leaves the version as it is, or removes exactly
    the two characters that follow a leading [major.minor], the second of
    them being [0]; a version that does not start with a digit is never
    changed. *)
Theorem zipVersion_of_changes_little :
  (forall version,
      zipVersion_of version = version
      \/ removes_two_after_minor version (zipVersion_of version))
  /\ (forall c rest,
         is_digit c = false -> zipVersion_of (String c rest) = String c rest)
  /\ zipVersion_of "" = "".
Proof.
  split; [| split; [| reflexivity]].
  - intro version. unfold zipVersion_of.
    destruct (match_version version) as [[group1 after] |] eqn:E; [| now left].
    right. apply match_version_sound in E.
    destruct E as (major & minor & c & H1 & H2 & H3 & H4 & H5 & -> & ->).
    exists major, minor, c, after. rewrite !append_assoc. cbn [append].
    repeat split; assumption.
  - intros c rest Hc. unfold zipVersion_of, match_version.
    cbn [digits_then]. now rewrite Hc.
Qed.

(** X7. A patch level [.0] after a version [major.minor] of one or more
    digits each is removed, however long the two numbers are, and the zip
    file asked for is that of [major.minor]. *)
Theorem zipVersion_of_removes_patch_zero (major minor : string) :
  major <> "" -> minor <> "" -> all_digits major -> all_digits minor ->
  zipVersion_of (major ++ "." ++ minor ++ ".0") = major ++ "." ++ minor
  /\ zipUrl_of (major ++ "." ++ minor ++ ".0")
     = "https://wordpress.org/wordpress-" ++ major ++ "." ++ minor ++ ".zip".
Proof.
  intros Hmajor Hminor Dmajor Dminor. unfold zipUrl_of.
  rewrite (zipVersion_of_patch_zero major minor Hmajor Hminor Dmajor Dminor).
  split; [reflexivity |].
  rewrite !append_assoc. reflexivity.
Qed.

Lemma zipVersion_of_removes_patch_zero_witness :
  zipVersion_of "12.34.0" = "12.34"
  /\ zipUrl_of "12.34.0" = "https://wordpress.org/wordpress-12.34.zip".
Proof.
  apply (zipVersion_of_removes_patch_zero "12" "34"); try discriminate;
    repeat constructor.
Defined.

(** The greedy [\d+] before a dot: when the rest of the pattern refuses
    every input that starts with a digit, only the whole run of digits is
    tried. *)
Lemma digits_then_dot {R : Type} (ds taken after : string)
    (rest_of_pattern : string -> string -> option R) :
  ds <> "" -> all_digits ds ->
  (forall t c r, is_digit c = true -> rest_of_pattern t (String c r) = None) ->
  digits_then (ds ++ String "." after) taken rest_of_pattern
  = rest_of_pattern (taken ++ ds) (String "." after).
Proof.
  intros Hne Hd Hk. revert taken.
  induction ds as [| c ds IH]; intro taken; [congruence |].
  unfold all_digits in Hd. cbn in Hd. inversion Hd as [| ? ? Hc Hds]; subst.
  cbn [append digits_then]. rewrite Hc.
  destruct ds as [| c' ds].
  - cbn [append digits_then]. change (is_digit ".") with false. reflexivity.
  - rewrite (IH ltac:(discriminate) Hds (taken ++ String c "")).
    rewrite append_assoc. cbn [append].
    destruct (rest_of_pattern (taken ++ String c (String c' ds)) (String "." after));
      [reflexivity |].
    apply Hk. now inversion Hds.
Qed.

Lemma not_zero_then_none (p0 : ascii) (p after : string) (c : ascii)
    (group1 : string) :
  p0 <> "0"%char ->
  match String c (String p0 p) with
  | String c' (String "0" after_match) =>
      if is_line_terminator c' then None else Some (group1, after_match)
  | _ => None
  end = None.
Proof.
  intro H. destruct p0 as [[] [] [] [] [] [] [] []]; try reflexivity.
  now contradiction H.
Qed.

(** The part of the pattern after [major.] fails on a minor of one or two
    digits that ends the version or is followed by a dot and a patch level
    that does not start with [0]. *)
Lemma minor_then_none (major minor tail : string) :
  minor <> "" -> all_digits minor -> (String.length minor <= 2)%nat ->
  (tail = "" \/ exists p0 p, p0 <> "0"%char /\ tail = String "." (String p0 p)) ->
  digits_then (minor ++ tail) "" (fun minor' after_minor =>
    match after_minor with
    | String c (String "0" after_match) =>
        if is_line_terminator c then None
        else Some (major ++ "." ++ minor', after_match)
    | _ => None
    end) = None.
Proof.
  intros Hne Hd Hlen Htail.
  destruct minor as [| d [| d2 [| d3 minor]]]; [congruence | | | cbn in Hlen; lia].
  - unfold all_digits in Hd. cbn in Hd. inversion Hd as [| ? ? Hd1 _]; subst.
    destruct Htail as [-> | (p0 & p & Hp0 & ->)];
      cbn [append digits_then]; rewrite Hd1.
    + reflexivity.
    + change (is_digit ".") with false. cbn iota.
      now apply not_zero_then_none.
  - unfold all_digits in Hd. cbn in Hd. inversion Hd as [| ? ? Hd1 Hd']; subst.
    inversion Hd' as [| ? ? Hd2 _]; subst.
    destruct Htail as [-> | (p0 & p & Hp0 & ->)];
      cbn [append digits_then]; rewrite Hd1, Hd2.
    + reflexivity.
    + change (is_digit ".") with false. cbn iota.
      rewrite (not_zero_then_none p0 p "" "." _ Hp0).
      destruct d2 as [[] [] [] [] [] [] [] []]; try reflexivity; discriminate Hd2.
Qed.

(** X9. A version [major.minor] or [major.minor.patch] whose minor has one
    or two digits and whose patch level does not start with [0] is left
    unchanged. *)
Theorem zipVersion_of_plain_versions (major minor : string) :
  major <> "" -> minor <> "" -> all_digits major -> all_digits minor ->
  (String.length minor <= 2)%nat ->
  zipVersion_of (major ++ "." ++ minor) = major ++ "." ++ minor
  /\ forall p0 p,
       p0 <> "0"%char ->
       zipVersion_of (major ++ "." ++ minor ++ "." ++ String p0 p)
       = major ++ "." ++ minor ++ "." ++ String p0 p.
Proof.
  intros Hmajor Hminor Dmajor Dminor Hlen.
  assert (K : forall tail,
             (tail = "" \/ exists p0 p, p0 <> "0"%char
                                        /\ tail = String "." (String p0 p)) ->
             zipVersion_of (major ++ "." ++ minor ++ tail)
             = major ++ "." ++ minor ++ tail).
  { intros tail Htail. unfold zipVersion_of, match_version.
    change (major ++ "." ++ minor ++ tail)
      with (major ++ String "." (minor ++ tail)).
    rewrite digits_then_dot; [| exact Hmajor | exact Dmajor |].
    - cbn [append]. now rewrite minor_then_none.
    - intros t c r Hc.
      destruct c as [[] [] [] [] [] [] [] []]; try reflexivity; discriminate Hc. }
  split.
  - rewrite <- (append_empty_r minor) at 1 2. apply K. now left.
  - intros p0 p Hp0. apply K. right. now exists p0, p.
Qed.

Lemma zipVersion_of_plain_versions_witness :
  zipVersion_of "6.10" = "6.10"
  /\ forall p0 p,
       p0 <> "0"%char -> zipVersion_of ("6.10." ++ String p0 p) = "6.10." ++ String p0 p.
Proof.
  apply (zipVersion_of_plain_versions "6" "10"); try discriminate;
    try (repeat constructor). 
Defined.

(** ** The calls of a branch set-up and of the branch loop *)

Lemma call_inversion {A : Type} (e : event) (answer : list event -> option A)
    (s s' : session) (a : A) :
  call e answer s = (s', inr a) ->
  s' = record_call e s /\ answer (trace s) = Some a.
Proof.
  unfold call. destruct (answer (trace s)); [| discriminate].
  intro H. injection H as <- <-. now split.
Qed.

Lemma call_trace {A : Type} (e : event) (answer : list event -> option A)
    (s s' : session) (a : A) :
  call e answer s = (s', inr a) -> trace s' = (trace s ++ [e])%list.
Proof. intro H. apply call_inversion in H. destruct H as [-> _]. reflexivity. Qed.


Lemma setUpGitBranch_trace (w : collaborators)
    (branch environmentDirectory : string) (s s' : session) :
  setUpGitBranch w branch environmentDirectory s = (s', inr tt) ->
  trace s' = (trace s ++ setUp_events w branch environmentDirectory)%list.
Proof.
  unfold setUpGitBranch, git_discardLocalChanges, git_checkoutRemoteBranch,
    log, runShellScript. intro H.
  apply bind_inversion in H. destruct H as (s1 & [] & H1 & H).
  apply bind_inversion in H. destruct H as (s2 & [] & H2 & H).
  apply bind_inversion in H. destruct H as (s3 & [] & H3 & H).
  apply bind_inversion in H. destruct H as (s4 & [] & H4 & H).
  apply call_trace in H1, H2, H3, H4, H.
  rewrite H, H4, H3, H2, H1. unfold setUp_events.
  now repeat rewrite <- app_assoc.
Qed.

Lemma runTestSuite_trace (w : collaborators)
    (testSuite performanceTestDirectory : string) (s s' : session)
    (r : WPPerformanceResults) :
  runTestSuite w testSuite performanceTestDirectory s = (s', inr r) ->
  trace s' = (trace s ++ suite_events w testSuite performanceTestDirectory)%list.
Proof.
  unfold runTestSuite. cbn [testRuns]. unfold runShellScript, readJSONFile_raw.
  intro H.
  apply bind_inversion in H. destruct H as (s7 & curated & H & Hret).
  injection Hret as <- _.
  apply bind_inversion in H. destruct H as (s1 & [] & H1 & H).
  apply bind_inversion in H. destruct H as (s2 & raw1 & H2 & H).
  apply bind_inversion in H. destruct H as (s3 & [] & H3 & H).
  apply bind_inversion in H. destruct H as (s4 & raw2 & H4 & H).
  apply bind_inversion in H. destruct H as (s5 & [] & H5 & H).
  apply bind_inversion in H. destruct H as (s6 & raw3 & H6 & H).
  injection H as <- _.
  apply call_trace in H1, H2, H3, H4, H5, H6.
  rewrite H6, H5, H4, H3, H2, H1. unfold suite_events, testRun_events.
  cbn [app]. now repeat rewrite <- app_assoc.
Qed.

Lemma recordSuite_trace (w : collaborators)
    (branch performanceTestDirectory testSuite : string) (s s' : session) :
  recordSuite w branch performanceTestDirectory testSuite s = (s', inr tt) ->
  trace s' = (trace s ++ suite_events w testSuite performanceTestDirectory)%list.
Proof.
  unfold recordSuite, bind, get_results, set_results.
  destruct (runTestSuite w testSuite performanceTestDirectory s)
    as [s1 [e | r]] eqn:E; [discriminate |].
  intro H. injection H as <-. cbn [trace].
  eapply runTestSuite_trace. exact E.
Qed.

Lemma branchCycle_trace (w : collaborators)
    (performanceTestDirectory environmentDirectory branch : string)
    (s s' : session) :
  branchCycle w performanceTestDirectory environmentDirectory branch s = (s', inr tt) ->
  trace s'
  = (trace s ++ cycle_events w performanceTestDirectory environmentDirectory branch)%list.
Proof.
  unfold branchCycle, log. intro H.
  apply bind_inversion in H. destruct H as (s1 & [] & H1 & H).
  apply bind_inversion in H. destruct H as (s2 & [] & H2 & H).
  unfold testSuites in H. cbn [for_of] in H.
  apply bind_inversion in H. destruct H as (s3 & [] & H3 & H).
  apply bind_inversion in H. destruct H as (s4 & [] & H4 & H).
  injection H as <-.
  apply setUpGitBranch_trace in H1. apply call_trace in H2.
  apply recordSuite_trace in H3, H4.
  rewrite H4, H3, H2, H1. unfold cycle_events.
  now repeat rewrite <- app_assoc.
Qed.

Lemma for_of_branchCycle_trace (w : collaborators)
    (performanceTestDirectory environmentDirectory : string)
    (branches : list string) (s s' : session) :
  for_of branches (branchCycle w performanceTestDirectory environmentDirectory) s
  = (s', inr tt) ->
  trace s'
  = (trace s
       ++ flat_map (cycle_events w performanceTestDirectory environmentDirectory)
                   branches)%list.
Proof.
  revert s. induction branches as [| branch branches IH]; intros s H;
    cbn [for_of flat_map] in *.
  - injection H as <-. now rewrite app_nil_r.
  - apply bind_inversion in H. destruct H as (s1 & [] & H1 & H).
    apply branchCycle_trace in H1. apply IH in H.
    now rewrite H, H1, <- app_assoc.
Qed.

Lemma count_in_cycles (w : collaborators)
    (performanceTestDirectory environmentDirectory : string)
    (kind : event -> bool) (per_cycle : nat) (branches : list string) :
  (forall branch,
      List.length
        (filter kind
           (cycle_events w performanceTestDirectory environmentDirectory branch))
      = per_cycle) ->
  List.length
    (filter kind
       (flat_map (cycle_events w performanceTestDirectory environmentDirectory)
                 branches))
  = (per_cycle * List.length branches)%nat.
Proof.
  intro H. induction branches as [| branch branches IH]; cbn [flat_map List.length].
  - now rewrite Nat.mul_0_r.
  - rewrite filter_app, length_app, H, IH. lia.
Qed.

Lemma branchLoop_calls_trace (w : collaborators) (branches : list string)
    (performanceTestDirectory environmentDirectory : string) (s s' : session) :
  branchLoop w branches performanceTestDirectory environmentDirectory s = (s', inr tt) ->
  trace s'
  = (trace s
       ++ flat_map (cycle_events w performanceTestDirectory environmentDirectory)
                   branches)%list.
Proof.
  unfold branchLoop. intro H.
  rewrite (bind_ok _ _ s (with_empty_results s) tt) in H by reflexivity.
  now apply for_of_branchCycle_trace in H.
Qed.

(** X11. The calls of a branch loop that succeeds are fixed by the branch
    list: for each branch in turn, the set-up and then the three runs of
    [post-editor] followed by the three runs of [site-editor].  So the loop
    checks out and builds once per branch and makes six test runs per
    branch. *)
Theorem branchLoop_calls (w : collaborators) (branches : list string)
    (performanceTestDirectory environmentDirectory : string) (s s' : session) :
  branchLoop w branches performanceTestDirectory environmentDirectory s = (s', inr tt) ->
  trace s'
  = (trace s
       ++ flat_map (cycle_events w performanceTestDirectory environmentDirectory)
                   branches)%list
  /\ List.length (filter is_checkout (skipn (List.length (trace s)) (trace s')))
     = List.length branches
  /\ List.length (filter is_build (skipn (List.length (trace s)) (trace s')))
     = List.length branches
  /\ List.length (filter is_test_run (skipn (List.length (trace s)) (trace s')))
     = (6 * List.length branches)%nat.
Proof.
  unfold branchLoop. intro H.
  rewrite (bind_ok _ _ s (with_empty_results s) tt) in H by reflexivity.
  apply for_of_branchCycle_trace in H. cbn [with_empty_results trace] in H.
  rewrite H. split; [reflexivity |].
  rewrite skipn_app, skipn_all, Nat.sub_diag. cbn [skipn app].
  repeat split.
  - rewrite <- (Nat.mul_1_l (List.length branches)).
    apply count_in_cycles. intro branch. reflexivity.
  - rewrite <- (Nat.mul_1_l (List.length branches)).
    apply count_in_cycles. intro branch. reflexivity.
  - apply count_in_cycles. intro branch. reflexivity.
Qed.

Lemma branchLoop_calls_witness :
  List.length
    (filter is_test_run
       (trace (fst (branchLoop (sample_collaborators "") ["trunk"; "rc"]
                               "/tmp/perf" "/tmp/env" fresh_session))))
  = 12%nat.
Proof.
  destruct (branchLoop_calls (sample_collaborators "") ["trunk"; "rc"]
              "/tmp/perf" "/tmp/env" fresh_session
              (fst (branchLoop (sample_collaborators "") ["trunk"; "rc"]
                               "/tmp/perf" "/tmp/env" fresh_session)))
    as (_ & _ & _ & H).
  - vm_compute. reflexivity.
  - exact H.
Defined.

(** ** The steps before the branch loop *)

Ltac appends_with tac :=
  repeat first
    [ apply appends_ret
    | apply appends_throw
    | apply appends_get_results
    | apply appends_set_results
    | apply appends_call; tac
    | apply appends_if
    | apply appends_for_of; intro
    | apply appends_bind; [| intro]
    | match goal with
      | |- appends _ (match ?x with _ => _ end) => destruct x
      end ].

Ltac unfold_session :=
  unfold runPerformanceTests, prepareEnvironment, branchLoop, branchCycle,
    setUpGitBranch, recordSuite, runTestSuite, stopEnvironment, report,
    reportSuite, log, askForConfirmation, git_clone, git_checkoutRemoteBranch,
    git_discardLocalChanges, getRandomTemporaryPath, runShellScript,
    readJSONFile_raw, readJSONFile_conf, writeFileSync, console_table;
  cbn [testRuns]; cbv zeta;
  unfold runShellScript, readJSONFile_raw.

Lemma bind_assoc {A B C : Type} (m : M A) (k : A -> M B) (k' : B -> M C)
    (s : session) :
  bind (bind m k) k' s = bind m (fun a => bind (k a) k') s.
Proof. unfold bind. now destruct (m s) as [s1 [e | a]]. Qed.

Lemma log_run (args : list string) (s : session) :
  log args s = (record_call (Log args) s, inr tt).
Proof. reflexivity. Qed.

(** X12. On CI the session never asks for a confirmation.  Off CI the
    prompt [Ready to go? ] is the first call after the welcome message and
    the only prompt of the session; when the user declines, the session ends
    there: nothing is cloned, no script is run and no result is recorded. *)
Theorem confirmation_gate (w : collaborators) (branches : list string)
    (options : WPPerformanceCommandOptions) (s0 : session) :
  (truthy_bool (ci options) = true ->
   exists evs,
     trace (fst (runPerformanceTests w branches options s0))
     = (trace s0 ++ evs)%list
     /\ Forall (fun e => is_confirmation e = false) evs)
  /\ (truthy_bool (ci options) = false ->
      exists rest,
        trace (fst (runPerformanceTests w branches options s0))
        = (trace s0
             ++ welcome_event w :: AskForConfirmation "Ready to go? " :: rest)%list
        /\ Forall (fun e => is_confirmation e = false) rest
        /\ (askForConfirmation_ok w (trace s0 ++ [welcome_event w])%list
                                  "Ready to go? " = false ->
            rest = []
            /\ snd (runPerformanceTests w branches options s0)
               = inl (Rejected (AskForConfirmation "Ready to go? "))
            /\ results (fst (runPerformanceTests w branches options s0))
               = results s0)).
Proof.
  split; intro Hci.
  - revert s0.
    change (appends (fun e => is_confirmation e = false)
                    (runPerformanceTests w branches options)).
    unfold_session. rewrite Hci. cbn [negb].
    appends_with ltac:(cbv beta; reflexivity).
  - unfold welcome_event.
    eassert (Hrun : runPerformanceTests w branches options s0
                    = bind (askForConfirmation w "Ready to go? ") _
                           (record_call (Log _) s0)).
    { unfold runPerformanceTests, prepareEnvironment. rewrite Hci. cbn [negb].
      cbv zeta. rewrite !bind_assoc.
      rewrite (bind_ok _ _ _ _ _ (log_run _ s0)).
      rewrite bind_assoc. reflexivity. }
    match type of Hrun with
    | _ = bind _ ?K _ => set (k := K) in *
    end.
    assert (Hk : appends (fun e => is_confirmation e = false) (k tt)).
    { subst k. cbv beta. unfold_session.
      appends_with ltac:(cbv beta; reflexivity). }
    rewrite Hrun. clearbody k. clear Hrun.
    unfold bind, askForConfirmation, call. cbn [record_call trace results].
    destruct (askForConfirmation_ok w _ "Ready to go? "); cbn [when_ok].
    + match goal with
      | |- context [k tt ?s1] => destruct (Hk s1) as (rest & E & HP)
      end.
      exists rest. rewrite E. unfold record_call. cbn [trace].
      rewrite <- !app_assoc. cbn [app].
      split; [reflexivity |]. split; [exact HP | discriminate].
    + exists []. unfold record_call. cbn [fst snd trace results].
      rewrite <- app_assoc. cbn [app].
      repeat split; auto.
Qed.

Lemma confirmation_gate_witness :
  snd (runPerformanceTests declining_collaborators ["trunk"]
                           interactive_options fresh_session)
  = inl (Rejected (AskForConfirmation "Ready to go? "))
  /\ exists evs,
       trace (fst (runPerformanceTests (sample_collaborators "") ["trunk"]
                                       (sample_options None) fresh_session))
       = (trace fresh_session ++ evs)%list
       /\ Forall (fun e => is_confirmation e = false) evs.
Proof.
  split.
  - destruct (confirmation_gate declining_collaborators ["trunk"]
                interactive_options fresh_session) as [_ H].
    destruct (H eq_refl) as (rest & _ & _ & K).
    destruct (K eq_refl) as (_ & R & _). exact R.
  - destruct (confirmation_gate (sample_collaborators "") ["trunk"]
                (sample_options None) fresh_session) as [H _].
    exact (H eq_refl).
Defined.

(** X13. The optional steps are skipped when their option is missing or is
    the empty string: without [testsBranch] the steps before the branch loop
    check out no branch, and without [wpVersion] they read and write no
    file. *)
Theorem optional_steps_skipped (w : collaborators)
    (options : WPPerformanceCommandOptions) (s0 : session) :
  (truthy_string (testsBranch options) = false ->
   exists evs,
     trace (fst (prepareEnvironment w options s0)) = (trace s0 ++ evs)%list
     /\ Forall (fun e => is_checkout e = false) evs)
  /\ (truthy_string (wpVersion options) = false ->
      exists evs,
        trace (fst (prepareEnvironment w options s0)) = (trace s0 ++ evs)%list
        /\ Forall (fun e => is_file_access e = false) evs).
Proof.
  split; intro H; revert s0.
  - change (appends (fun e => is_checkout e = false)
                    (prepareEnvironment w options)).
    unfold_session. rewrite H.
    appends_with ltac:(cbv beta; reflexivity).
  - change (appends (fun e => is_file_access e = false)
                    (prepareEnvironment w options)).
    unfold_session. rewrite H.
    appends_with ltac:(cbv beta; reflexivity).
Qed.

Lemma optional_steps_skipped_witness :
  exists evs,
    trace (fst (prepareEnvironment (sample_collaborators "")
                  (sample_options (Some "")) fresh_session))
    = (trace fresh_session ++ evs)%list
    /\ Forall (fun e => is_file_access e = false) evs.
Proof.
  destruct (optional_steps_skipped (sample_collaborators "")
              (sample_options (Some "")) fresh_session) as [_ H].
  exact (H eq_refl).
Defined.

Lemma call_step {A : Type} (e : event) (answer : list event -> option A)
    (s s' : session) (a : A) :
  call e answer s = (s', inr a) ->
  trace s' = (trace s ++ [e])%list /\ results s' = results s
  /\ answer (trace s) = Some a.
Proof.
  intro H. apply call_inversion in H. destruct H as [-> H].
  repeat split. exact H.
Qed.

(** The steps before the branch loop, when they succeed: the calls before
    the patch of the configuration, the patch when a version is asked for,
    and the start of the environment. *)
Lemma prepareEnvironment_inversion (w : collaborators)
    (options : WPPerformanceCommandOptions) (s0 s : session)
    (performanceTestDirectory environmentDirectory : string) :
  prepareEnvironment w options s0
  = (s, inr (performanceTestDirectory, environmentDirectory)) ->
  exists before patch,
    trace s
    = (trace s0 ++ before ++ patch
         ++ [RunShellScript startScript (Some environmentDirectory)])%list
    /\ results s = results s0
    /\ Forall (fun e => uses_environment e = false) before
    /\ In (GitClone (gitRepositoryURL w)) before
    /\ In (RunShellScript
             ("cp -R " ++ performanceTestDirectory ++ " " ++ environmentDirectory)
             None) before
    /\ (exists t, git_clone_result w t (gitRepositoryURL w)
                  = Some performanceTestDirectory)
    /\ (exists t, getRandomTemporaryPath_result w t = environmentDirectory)
    /\ (truthy_string (testsBranch options) = true ->
        In (GitCheckoutRemoteBranch performanceTestDirectory
              (string_or_empty (testsBranch options))) before)
    /\ (if truthy_string (wpVersion options)
        then exists conf0,
            readJSONFile_config w
              (trace s0 ++ before
                 ++ [Log [("Using WordPress version "
                             ++ zipVersion_of
                                  (string_or_empty (wpVersion options)))%string]])%list
              (confPath_of environmentDirectory) = Some conf0
            /\ patch = config_events (string_or_empty (wpVersion options))
                                     environmentDirectory conf0
        else patch = []).
Proof.
  unfold prepareEnvironment. cbv zeta. intro H.
  apply bind_inversion in H. destruct H as (s1 & [] & H1 & H).
  apply bind_inversion in H. destruct H as (s2 & [] & H2 & H).
  apply bind_inversion in H. destruct H as (s3 & [] & H3 & H).
  apply bind_inversion in H. destruct H as (s4 & perf & H4 & H).
  apply bind_inversion in H. destruct H as (s5 & [] & H5 & H).
  apply bind_inversion in H. destruct H as (s6 & env & H6 & H).
  apply bind_inversion in H. destruct H as (s7 & [] & H7 & H).
  apply bind_inversion in H. destruct H as (s8 & [] & H8 & H).
  apply bind_inversion in H. destruct H as (s9 & [] & H9 & H).
  apply bind_inversion in H. destruct H as (s10 & [] & H10 & H).
  apply bind_inversion in H. destruct H as (s11 & [] & H11 & H).
  apply bind_inversion in H. destruct H as (s12 & [] & H12 & H).
  apply bind_inversion in H. destruct H as (s13 & [] & H13 & H).
  apply bind_inversion in H. destruct H as (s14 & [] & H14 & H).
  injection H as <- <- <-.
  unfold log, askForConfirmation, git_clone, git_checkoutRemoteBranch,
    getRandomTemporaryPath, runShellScript, readJSONFile_conf, writeFileSync in *.
  apply call_step in H1, H3, H4, H6, H7, H8, H9, H10, H11, H12, H14.
  destruct H1 as (T1 & R1 & _), H3 as (T3 & R3 & _), H4 as (T4 & R4 & A4),
    H6 as (T6 & R6 & A6), H7 as (T7 & R7 & _), H8 as (T8 & R8 & _),
    H9 as (T9 & R9 & _), H10 as (T10 & R10 & _), H11 as (T11 & R11 & _),
    H12 as (T12 & R12 & _), H14 as (T14 & R14 & _).
  assert (E2 : exists evs2,
             trace s2 = (trace s1 ++ evs2)%list /\ results s2 = results s1
             /\ Forall (fun e => uses_environment e = false) evs2).
  { destruct (negb (truthy_bool (ci options))).
    - apply call_step in H2. destruct H2 as (T2 & R2 & _).
      exists [AskForConfirmation "Ready to go? "]. repeat split; auto.
    - injection H2 as <-. exists []. rewrite app_nil_r. repeat split; auto. }
  destruct E2 as (evs2 & T2 & R2 & P2).
  assert (E5 : exists evs5,
             trace s5 = (trace s4 ++ evs5)%list /\ results s5 = results s4
             /\ Forall (fun e => uses_environment e = false) evs5
             /\ (truthy_string (testsBranch options) = true ->
                 In (GitCheckoutRemoteBranch perf
                       (string_or_empty (testsBranch options))) evs5)).
  { destruct (truthy_string (testsBranch options)).
    - apply bind_inversion in H5. destruct H5 as (s' & [] & H5 & H5').
      apply call_step in H5, H5'.
      destruct H5 as (T5 & R5 & _), H5' as (T5' & R5' & _).
      eexists [_; _]. rewrite T5', T5, <- app_assoc. cbn [app].
      split; [reflexivity |]. split; [congruence |].
      split; [repeat constructor |]. intros _. right. now left.
    - injection H5 as <-. exists []. rewrite app_nil_r.
      repeat split; auto. discriminate. }
  destruct E5 as (evs5 & T5 & R5 & P5 & C5).
  exists (Log [formats_title w (LF ++ "💃 Performance Tests 🕺" ++ LF ++ LF)%string; welcome]
            :: evs2
            ++ Log [">> Cloning the repository"]
            :: GitClone (gitRepositoryURL w)
            :: evs5
            ++ [GetRandomTemporaryPath;
                Log [(">> Perf Tests Directory : " ++ formats_success w perf)%string];
                Log [(">> Environment Directory : " ++ formats_success w env)%string];
                Log [">> Installing dependencies"];
                RunShellScript "npm install && npm run build:packages" (Some perf);
                RunShellScript ("cp -R " ++ perf ++ " " ++ env)%string None;
                Log [">> Starting the WordPress environment"]])%list.
  assert (T : trace s12
              = (trace s0
                   ++ Log [formats_title w
                             (LF ++ "💃 Performance Tests 🕺" ++ LF ++ LF)%string; welcome]
                   :: evs2
                   ++ Log [">> Cloning the repository"]
                   :: GitClone (gitRepositoryURL w)
                   :: evs5
                   ++ [GetRandomTemporaryPath;
                       Log [(">> Perf Tests Directory : " ++ formats_success w perf)%string];
                       Log [(">> Environment Directory : " ++ formats_success w env)%string];
                       Log [">> Installing dependencies"];
                       RunShellScript "npm install && npm run build:packages"
                                      (Some perf);
                       RunShellScript ("cp -R " ++ perf ++ " " ++ env)%string None;
                       Log [">> Starting the WordPress environment"]])%list).
  { rewrite T12, T11, T10, T9, T8, T7, T6, T5, T4, T3, T2, T1.
    repeat rewrite <- app_assoc. cbn [app]. reflexivity. }
  assert (R : results s12 = results s0) by congruence.
  assert (K : exists patch,
             trace s13 = (trace s12 ++ patch)%list /\ results s13 = results s12
             /\ if truthy_string (wpVersion options)
                then exists conf0,
                    readJSONFile_config w
                      (trace s12
                         ++ [Log [("Using WordPress version "
                                     ++ zipVersion_of
                                          (string_or_empty (wpVersion options)))%string]])%list
                      (confPath_of env) = Some conf0
                    /\ patch = config_events (string_or_empty (wpVersion options))
                                             env conf0
                else patch = []).
  { destruct (truthy_string (wpVersion options)).
    - apply bind_inversion in H13. destruct H13 as (sa & [] & Ha & H13).
      apply bind_inversion in H13. destruct H13 as (sb & conf0 & Hb & Hc).
      apply call_step in Ha, Hb, Hc.
      destruct Ha as (Ta & Ra & _), Hb as (Tb & Rb & Ab), Hc as (Tc & Rc & _).
      exists (config_events (string_or_empty (wpVersion options)) env conf0).
      split; [| split; [congruence |]].
      + rewrite Tc, Tb, Ta. unfold config_events, confPath_of, zipUrl_of.
        repeat rewrite <- app_assoc. reflexivity.
      + exists conf0. split; [| reflexivity].
        rewrite Ta in Ab. exact Ab.
    - injection H13 as <-. exists []. rewrite app_nil_r. repeat split. }
  destruct K as (patch & T13 & R13 & Hpatch).
  exists patch.
  split. { rewrite T14, T13, T. repeat rewrite <- app_assoc. reflexivity. }
  split; [congruence |].
  split.
  { constructor; [reflexivity |]. apply Forall_app. split; [exact P2 |].
    constructor; [reflexivity |]. constructor; [reflexivity |].
    apply Forall_app. split; [exact P5 |].
    repeat (constructor; [reflexivity |]). constructor. }
  split. { right. apply in_or_app. right. right. now left. }
  split.
  { right. apply in_or_app. right. right. right. apply in_or_app. right.
    cbn. tauto. }
  split; [now exists (trace s3) |].
  split. { exists (trace s5). now injection A6. }
  split.
  { intro Hb. right. apply in_or_app. right. right. right.
    apply in_or_app. left. now apply C5. }
  destruct (truthy_string (wpVersion options)); [| exact Hpatch].
  destruct Hpatch as (conf0 & Hc & ->). exists conf0. split; [| reflexivity].
  rewrite T in Hc. rewrite <- app_assoc in Hc. exact Hc.
Qed.

(** X14. When a WordPress version is asked for, the configuration of the
    environment is read and written back just before the environment starts,
    and these are the only file accesses before the start.  The written
    configuration has the URL of the version's zip file as [core] and every
    other setting as it was read, in the same order; [core] keeps its place
    when the configuration had one and comes last otherwise. *)
Theorem config_patch_keeps_other_settings (w : collaborators)
    (options : WPPerformanceCommandOptions) (s0 s : session)
    (performanceTestDirectory environmentDirectory : string) :
  truthy_string (wpVersion options) = true ->
  prepareEnvironment w options s0
  = (s, inr (performanceTestDirectory, environmentDirectory)) ->
  exists before conf0 conf,
    trace s
    = (trace s0 ++ before
         ++ [ReadJSONFile (confPath_of environmentDirectory);
             WriteFileSync (confPath_of environmentDirectory) (JObject conf);
             RunShellScript startScript (Some environmentDirectory)])%list
    /\ Forall (fun e => is_file_access e = false) before
    /\ readJSONFile_config w (trace s0 ++ before)%list
                           (confPath_of environmentDirectory) = Some conf0
    /\ obj_get "core" conf
       = Some (JString (zipUrl_of (string_or_empty (wpVersion options))))
    /\ (forall key, key <> "core" -> obj_get key conf = obj_get key conf0)
    /\ obj_keys conf
       = if key_has "core" (obj_keys conf0)
         then obj_keys conf0
         else (obj_keys conf0 ++ ["core"])%list.
Proof.
  intros Hv H. apply prepareEnvironment_inversion in H.
  destruct H as (before & patch & T & _ & P & _ & _ & _ & _ & _ & Hpatch).
  rewrite Hv in Hpatch. destruct Hpatch as (conf0 & Hread & ->).
  exists (before
            ++ [Log [("Using WordPress version "
                        ++ zipVersion_of
                             (string_or_empty (wpVersion options)))%string]])%list,
    conf0,
    (obj_define "core"
       (JString (zipUrl_of (string_or_empty (wpVersion options)))) conf0).
  split.
  { rewrite T. unfold config_events. repeat rewrite <- app_assoc. reflexivity. }
  split.
  { apply Forall_app. split; [| repeat constructor].
    eapply Forall_impl; [| exact P]. intros e He. unfold uses_environment in He.
    destruct (is_file_access e); [| reflexivity].
    now rewrite !orb_true_r in He. }
  split. { rewrite app_assoc in Hread. now rewrite app_assoc. }
  split. { rewrite obj_get_define. reflexivity. }
  split.
  { intros key Hkey. rewrite obj_get_define.
    destruct (String.eqb_spec "core" key); [congruence | reflexivity]. }
  rewrite obj_keys_define. unfold key_define.
  destruct (key_has "core" (obj_keys conf0)); reflexivity.
Qed.

Lemma config_patch_keeps_other_settings_witness :
  exists before conf0 conf,
    trace (fst (prepareEnvironment (sample_collaborators "")
                  (sample_options (Some "5.7.0")) fresh_session))
    = (trace fresh_session ++ before
         ++ [ReadJSONFile (confPath_of "/tmp/env");
             WriteFileSync (confPath_of "/tmp/env") (JObject conf);
             RunShellScript startScript (Some "/tmp/env")])%list
    /\ Forall (fun e => is_file_access e = false) before
    /\ readJSONFile_config (sample_collaborators "")
         (trace fresh_session ++ before)%list (confPath_of "/tmp/env")
       = Some conf0
    /\ obj_get "core" conf
       = Some (JString (zipUrl_of (string_or_empty
                                     (wpVersion (sample_options (Some "5.7.0"))))))
    /\ (forall key, key <> "core" -> obj_get key conf = obj_get key conf0)
    /\ obj_keys conf
       = if key_has "core" (obj_keys conf0)
         then obj_keys conf0
         else (obj_keys conf0 ++ ["core"])%list.
Proof.
  apply (config_patch_keeps_other_settings (sample_collaborators "")
           (sample_options (Some "5.7.0")) fresh_session
           (fst (prepareEnvironment (sample_collaborators "")
                   (sample_options (Some "5.7.0")) fresh_session))
           "/tmp/perf" "/tmp/env").
  - reflexivity.
  - vm_compute. reflexivity.
Defined.

(** ** Failures of a session *)

Lemma fails_by_rejection_ret {A : Type} (a : A) : fails_by_rejection (ret a).
Proof. intros s s' e H. discriminate H. Qed.

Lemma fails_by_rejection_get_results : fails_by_rejection get_results.
Proof. intros s s' e H. discriminate H. Qed.

Lemma fails_by_rejection_set_results (value : obj (obj WPPerformanceResults)) :
  fails_by_rejection (set_results value).
Proof. intros s s' e H. discriminate H. Qed.

Lemma fails_by_rejection_call {A : Type} (c : event)
    (answer : list event -> option A) :
  fails_by_rejection (call c answer).
Proof.
  intros s s' e. unfold call. destruct (answer (trace s)); [discriminate |].
  intro H. injection H as <- <-. now exists (trace s), c.
Qed.

Lemma fails_by_rejection_bind {A B : Type} (m : M A) (k : A -> M B) :
  fails_by_rejection m -> (forall a, fails_by_rejection (k a)) ->
  fails_by_rejection (bind m k).
Proof.
  intros Hm Hk s s' e. unfold bind.
  destruct (m s) as [s1 [e1 | a]] eqn:E.
  - intro H. injection H as <- <-. exact (Hm _ _ _ E).
  - apply Hk.
Qed.

Lemma fails_by_rejection_if {A : Type} (b : bool) (m1 m2 : M A) :
  fails_by_rejection m1 -> fails_by_rejection m2 ->
  fails_by_rejection (if b then m1 else m2).
Proof. now destruct b. Qed.

Lemma fails_by_rejection_for_of {A : Type} (items : list A) (body : A -> M unit) :
  (forall x, fails_by_rejection (body x)) -> fails_by_rejection (for_of items body).
Proof.
  intro Hb. induction items as [| x items IH]; cbn [for_of].
  - apply fails_by_rejection_ret.
  - apply fails_by_rejection_bind; [apply Hb | intros _; exact IH].
Qed.

Ltac rejections :=
  repeat first
    [ apply fails_by_rejection_ret
    | apply fails_by_rejection_get_results
    | apply fails_by_rejection_set_results
    | apply fails_by_rejection_call
    | apply fails_by_rejection_if
    | apply fails_by_rejection_for_of; intro
    | apply fails_by_rejection_bind; [| intro] ].

Lemma prepareEnvironment_fails_by_rejection (w : collaborators)
    (options : WPPerformanceCommandOptions) :
  fails_by_rejection (prepareEnvironment w options).
Proof. unfold_session. rejections. Qed.

Lemma branchLoop_fails_by_rejection (w : collaborators) (branches : list string)
    (performanceTestDirectory environmentDirectory : string) :
  fails_by_rejection
    (branchLoop w branches performanceTestDirectory environmentDirectory).
Proof. unfold_session. rejections. Qed.

Lemma stopEnvironment_fails_by_rejection (w : collaborators)
    (environmentDirectory : string) :
  fails_by_rejection (stopEnvironment w environmentDirectory).
Proof. unfold_session. rejections. Qed.

Lemma reportSuite_fails_by_rejection (w : collaborators) (testSuite : string)
    (s s' : session) (e : exn) :
  obj_get testSuite (results s) <> None ->
  reportSuite w testSuite s = (s', inl e) ->
  exists before c, trace s' = (before ++ [c])%list /\ e = Rejected c.
Proof.
  intro Hsuite. unfold reportSuite, log, get_results, bind, call at 1.
  cbn [trace results record_call].
  destruct (obj_get testSuite (results s)) as [by_branch |]; [| congruence].
  unfold console_table, writeFileSync, bind, call.
  cbn [trace results record_call].
  destruct (when_ok (writeFileSync_ok w _ _ _)) as [[] |]; [discriminate |].
  intro H. injection H as <- <-. cbn [trace].
  eexists _, _. split; reflexivity.
Qed.

Lemma reportSuite_results (w : collaborators) (testSuite : string) (s : session) :
  results (fst (reportSuite w testSuite s)) = results s.
Proof.
  unfold reportSuite, log, get_results, bind, call at 1.
  cbn [trace results record_call].
  destruct (obj_get testSuite (results s)) as [by_branch |]; [| reflexivity].
  unfold console_table, writeFileSync, bind, call.
  cbn [trace results record_call].
  now destruct (when_ok (writeFileSync_ok w _ _ _)) as [[] |].
Qed.

Lemma report_fails_by_rejection (w : collaborators) (s s' : session) (e : exn) :
  (forall testSuite, In testSuite testSuites ->
     obj_get testSuite (results s) <> None) ->
  report w s = (s', inl e) ->
  exists before c, trace s' = (before ++ [c])%list /\ e = Rejected c.
Proof.
  intros Hsuites. unfold report, testSuites. cbn [for_of].
  rewrite (bind_ok _ _ _ _ _ (log_run _ s)).
  set (s1 := record_call _ s).
  assert (R1 : results s1 = results s) by reflexivity.
  clearbody s1. unfold bind.
  pose proof (reportSuite_results w "post-editor" s1) as R2.
  destruct (reportSuite w "post-editor" s1) as [s2 [e2 | []]] eqn:E2.
  - intro H. injection H as <- <-.
    apply (reportSuite_fails_by_rejection w "post-editor" s1); [| exact E2].
    rewrite R1. apply Hsuites. now left.
  - cbn [fst] in R2.
    destruct (reportSuite w "site-editor" s2) as [s3 [e3 | []]] eqn:E3.
    + intro H. injection H as <- <-.
      apply (reportSuite_fails_by_rejection w "site-editor" s2); [| exact E3].
      rewrite R2, R1. apply Hsuites. right. now left.
    + discriminate.
Qed.

Lemma fold_key_define_keeps (key : string) (names keys : list string) :
  In key keys ->
  In key (fold_left (fun ks name => key_define name ks) names keys).
Proof.
  revert keys. induction names as [| name names IH]; intros keys H; cbn.
  - exact H.
  - apply IH. destruct (in_dec string_dec name keys) as [Hin | Hnew].
    + now rewrite key_define_old.
    + eapply Permutation_in; [symmetry; now apply key_define_new |].
      now right.
Qed.

Lemma fold_key_define_adds (key : string) (names keys : list string) :
  In key names ->
  In key (fold_left (fun ks name => key_define name ks) names keys).
Proof.
  revert keys. induction names as [| name names IH]; intros keys H; cbn.
  - contradiction.
  - destruct H as [-> | H]; [| now apply IH].
    apply fold_key_define_keeps.
    destruct (in_dec string_dec key keys) as [Hin | Hnew].
    + now rewrite key_define_old.
    + eapply Permutation_in; [symmetry; now apply key_define_new |].
      now left.
Qed.

Lemma js_key_order_In (key : string) (names : list string) :
  In key (js_key_order names) <-> In key names.
Proof.
  split.
  - intro H. apply fold_key_define_In in H. destruct H as [H | []]. exact H.
  - apply fold_key_define_adds.
Qed.

(** After a branch loop that succeeds on at least one branch, the table has
    both suites. *)
Lemma branchLoop_suites (w : collaborators) (branches : list string)
    (performanceTestDirectory environmentDirectory : string) (s s' : session) :
  branches <> [] ->
  branchLoop w branches performanceTestDirectory environmentDirectory s
  = (s', inr tt) ->
  exists by_post by_site,
    results s' = [("post-editor", by_post); ("site-editor", by_site)]
    /\ obj_keys by_post = js_key_order branches
    /\ obj_keys by_site = js_key_order branches.
Proof.
  intros Hne H. apply branchLoop_shape in H.
  destruct H as [[_ E] | H]; [| exact H].
  destruct branches as [| b branches]; [congruence |].
  assert (Hin : In b (js_key_order (b :: branches))).
  { apply js_key_order_In. now left. }
  rewrite E in Hin. contradiction.
Qed.



(** ** The calls of a session that completes *)

Lemma report_trace (w : collaborators) (s s' : session) :
  report w s = (s', inr tt) ->
  exists post site,
    obj_get "post-editor" (results s) = Some post
    /\ obj_get "site-editor" (results s) = Some site
    /\ results s' = results s
    /\ trace s'
       = (trace s
            ++ Log [(LF ++ ">> 🎉 Results." ++ LF)%string]
            :: reportSuite_events w "post-editor" post
            ++ reportSuite_events w "site-editor" site)%list.
Proof.
  unfold report, testSuites. cbn [for_of]. intro H.
  rewrite (bind_ok _ _ _ _ _ (log_run _ s)) in H.
  apply bind_inversion in H. destruct H as (s2 & [] & H2 & H).
  apply bind_inversion in H. destruct H as (s3 & [] & H3 & H).
  injection H as <-.
  apply reportSuite_inversion in H2, H3.
  destruct H2 as (K2 & post & Gp & Tp), H3 as (K3 & site & Gs & Ts).
  cbn [record_call results trace] in *.
  exists post, site. rewrite K2 in Gs.
  split; [exact Gp |]. split; [exact Gs |]. split; [congruence |].
  rewrite Ts, Tp. unfold reportSuite_events.
  repeat rewrite <- app_assoc. reflexivity.
Qed.

Lemma filter_none {A : Type} (f : A -> bool) (l : list A) :
  Forall (fun x => f x = false) l -> filter f l = [].
Proof.
  induction 1 as [| x l Hx _ IH]; cbn; [reflexivity |]. now rewrite Hx.
Qed.

Lemma uses_environment_false (e : event) :
  uses_environment e = false ->
  is_start e = false /\ is_stop e = false /\ is_build e = false
  /\ is_test_run e = false /\ is_file_access e = false /\ is_table e = false.
Proof.
  unfold uses_environment.
  destruct (is_start e), (is_stop e), (is_build e), (is_test_run e),
    (is_file_access e), (is_table e); cbn; intro H;
    try discriminate H; repeat split.
Qed.

(** X16. The calls of a session that completes come in five phases: the
    calls before the environment exists, which neither run a build or a test
    nor touch a file or a table; the patch of the configuration, if any, and
    the start of the environment; for each branch in turn, the set-up and
    the runs of the two suites; the stop of the environment; the report of
    the two suites.  So the environment is started once and stopped once,
    every build and test run happens in between, and the two tables are
    shown after the stop. *)
Theorem completed_session_phases (w : collaborators) (branches : list string)
    (options : WPPerformanceCommandOptions) (s0 s' : session) :
  runPerformanceTests w branches options s0 = (s', inr tt) ->
  exists performanceTestDirectory environmentDirectory before patch post site evs,
    trace s' = (trace s0 ++ evs)%list
    /\ evs
       = (before ++ patch
            ++ [RunShellScript startScript (Some environmentDirectory)]
            ++ flat_map (cycle_events w performanceTestDirectory
                                      environmentDirectory)
                        (branches_or_trunk branches)
            ++ [Log [">> Stopping the WordPress environment"];
                RunShellScript stopScript (Some environmentDirectory)]
            ++ Log [(LF ++ ">> 🎉 Results." ++ LF)%string]
            :: reportSuite_events w "post-editor" post
            ++ reportSuite_events w "site-editor" site)%list
    /\ Forall (fun e => uses_environment e = false) before
    /\ Forall (fun e => is_shell e = false /\ is_table e = false) patch
    /\ results s' = [("post-editor", post); ("site-editor", site)]
    /\ List.length (filter is_start evs) = 1%nat
    /\ List.length (filter is_stop evs) = 1%nat
    /\ List.length (filter is_table evs) = 2%nat.
Proof.
  unfold runPerformanceTests. cbv zeta. fold (branches_or_trunk branches).
  intro H.
  apply bind_inversion in H. destruct H as (s1 & [perf env] & H1 & H).
  cbn [fst snd] in H.
  apply bind_inversion in H. destruct H as (s2 & [] & H2 & H).
  apply bind_inversion in H. destruct H as (s3 & [] & H3 & H).
  apply prepareEnvironment_inversion in H1.
  destruct H1 as (before & patch & T1 & _ & P & _ & _ & _ & _ & _ & Hpatch).
  pose proof (branchLoop_suites w _ _ _ _ _ (branches_or_trunk_cons branches) H2)
    as (by_post & by_site & R2 & _).
  apply branchLoop_calls_trace in H2.
  pose proof (stopEnvironment_keeps_results w env s2) as R3.
  rewrite H3 in R3. cbn [fst] in R3.
  unfold stopEnvironment, log, runShellScript in H3.
  apply bind_inversion in H3. destruct H3 as (sa & [] & Ha & Hb).
  apply call_trace in Ha, Hb.
  apply report_trace in H. destruct H as (post & site & Gp & Gs & R4 & T4).
  rewrite R3, R2 in Gp, Gs. cbn in Gp, Gs.
  injection Gp as <-. injection Gs as <-.
  assert (Ppatch : Forall (fun e => is_shell e = false /\ is_table e = false) patch).
  { destruct (truthy_string (wpVersion options)).
    - destruct Hpatch as (conf0 & _ & ->). unfold config_events.
      repeat constructor.
    - subst patch. constructor. }
  exists perf, env, before, patch, by_post, by_site. eexists.
  split.
  { rewrite T4, Hb, Ha, H2, T1. repeat rewrite <- app_assoc. reflexivity. }
  split; [reflexivity |].
  split; [exact P |]. split; [exact Ppatch |].
  split; [congruence |].
  assert (B : forall kind,
             (forall e, uses_environment e = false -> kind e = false) ->
             filter kind before = []).
  { intros kind Hk. apply filter_none. eapply Forall_impl; [| exact P].
    exact Hk. }
  assert (C : forall kind,
             (forall e, is_shell e = false /\ is_table e = false -> kind e = false) ->
             filter kind patch = []).
  { intros kind Hk. apply filter_none. eapply Forall_impl; [| exact Ppatch].
    exact Hk. }
  repeat split.
  - rewrite !filter_app, !length_app.
    rewrite (count_in_cycles w perf env is_start 0) by reflexivity.
    rewrite B by (intros e He; now apply uses_environment_false in He).
    rewrite C by (intros [] [He _]; cbn in *; congruence).
    reflexivity.
  - rewrite !filter_app, !length_app.
    rewrite (count_in_cycles w perf env is_stop 0) by reflexivity.
    rewrite B by (intros e He; now apply uses_environment_false in He).
    rewrite C by (intros [] [He _]; cbn in *; congruence).
    reflexivity.
  - rewrite !filter_app, !length_app.
    rewrite (count_in_cycles w perf env is_table 0) by reflexivity.
    rewrite B by (intros e He; now apply uses_environment_false in He).
    rewrite C by (intros e [_ He]; exact He).
    reflexivity.
Qed.

Lemma completed_session_phases_witness :
  exists performanceTestDirectory environmentDirectory before patch post site evs,
    trace (fst (runPerformanceTests (sample_collaborators "") ["rc"; "trunk"]
                                    (sample_options (Some "5.7.0")) fresh_session))
    = (trace fresh_session ++ evs)%list
    /\ evs
       = (before ++ patch
            ++ [RunShellScript startScript (Some environmentDirectory)]
            ++ flat_map (cycle_events (sample_collaborators "")
                                      performanceTestDirectory
                                      environmentDirectory)
                        (branches_or_trunk ["rc"; "trunk"])
            ++ [Log [">> Stopping the WordPress environment"];
                RunShellScript stopScript (Some environmentDirectory)]
            ++ Log [(LF ++ ">> 🎉 Results." ++ LF)%string]
            :: reportSuite_events (sample_collaborators "") "post-editor" post
            ++ reportSuite_events (sample_collaborators "") "site-editor" site)%list
    /\ Forall (fun e => uses_environment e = false) before
    /\ Forall (fun e => is_shell e = false /\ is_table e = false) patch
    /\ results (fst (runPerformanceTests (sample_collaborators "") ["rc"; "trunk"]
                       (sample_options (Some "5.7.0")) fresh_session))
       = [("post-editor", post); ("site-editor", site)]
    /\ List.length (filter is_start evs) = 1%nat
    /\ List.length (filter is_stop evs) = 1%nat
    /\ List.length (filter is_table evs) = 2%nat.
Proof.
  apply (completed_session_phases (sample_collaborators "") ["rc"; "trunk"]
           (sample_options (Some "5.7.0")) fresh_session).
  vm_compute. reflexivity.
Defined.

(** ** Branches named more than once *)



(** ** The rows of the transposed table *)

Section Rows.

Variable w : collaborators.

Lemma obj_keys_invertEntry (key : string) (acc : obj (obj string))
    (entry_value : string * number) :
  obj_keys (invertEntry w key acc entry_value)
  = key_define (fst entry_value) (obj_keys acc).
Proof.
  unfold invertEntry.
  set (acc' := if obj_has (fst entry_value) acc then acc
               else obj_define (fst entry_value) [] acc).
  assert (K : obj_keys acc' = key_define (fst entry_value) (obj_keys acc)).
  { unfold acc'. rewrite obj_has_keys.
    destruct (key_has (fst entry_value) (obj_keys acc)) eqn:E.
    - apply key_has_In in E. now rewrite key_define_old.
    - apply obj_keys_define. }
  destruct (isFinite (snd entry_value)); [| exact K].
  destruct (obj_get (fst entry_value) acc'); [| exact K].
  now rewrite obj_keys_update.
Qed.

Lemma obj_keys_fold_invertEntry (key : string)
    (entries : list (string * number)) (acc : obj (obj string)) :
  obj_keys (fold_left (invertEntry w key) entries acc)
  = fold_left (fun keys name => key_define name keys)
              (map fst entries) (obj_keys acc).
Proof.
  revert acc. induction entries as [| ev entries IH]; intro acc.
  - reflexivity.
  - rewrite fold_left_cons, IH, obj_keys_invertEntry. reflexivity.
Qed.

Lemma metric_keys_defined (keys : list string) :
  keys = [] \/ keys = metric_keys ->
  fold_left (fun keys name => key_define name keys) metric_keys keys
  = metric_keys.
Proof. intros [-> | ->]; vm_compute; reflexivity. Qed.

Lemma obj_keys_invert_from (by_branch : obj WPPerformanceResults)
    (acc : obj (obj string)) :
  obj_keys acc = metric_keys ->
  obj_keys
    (fold_left
       (fun acc key_val =>
          fold_left (invertEntry w (fst key_val)) (perf_entries (snd key_val)) acc)
       by_branch acc)
  = metric_keys.
Proof.
  revert acc. induction by_branch as [| [key r] by_branch IH]; intros acc K.
  - exact K.
  - rewrite fold_left_cons. apply IH. cbn [fst snd].
    rewrite obj_keys_fold_invertEntry, K.
    change (map fst (perf_entries r)) with metric_keys.
    apply metric_keys_defined. now right.
Qed.

Lemma invertEntry_not_finite (key : string) (acc : obj (obj string))
    (entry_value : string * number) :
  isFinite (snd entry_value) = false ->
  invertEntry w key acc entry_value
  = if obj_has (fst entry_value) acc then acc
    else obj_define (fst entry_value) [] acc.
Proof. intro H. unfold invertEntry. now rewrite H. Qed.

Lemma fold_invertEntry_not_finite (key : string)
    (entries : list (string * number)) (acc : obj (obj string)) :
  Forall (fun ev => isFinite (snd ev) = false) entries ->
  fold_left (invertEntry w key) entries acc
  = fold_left (fun acc name => if obj_has name acc then acc
                               else obj_define name [] acc)
              (map fst entries) acc.
Proof.
  intro H. revert acc. induction H as [| ev entries Hev _ IH]; intro acc.
  - reflexivity.
  - rewrite fold_left_cons, (invertEntry_not_finite _ _ _ Hev). cbn [map].
    rewrite fold_left_cons. apply IH.
Qed.

Lemma empty_rows_defined (acc : obj (obj string)) :
  acc = [] \/ acc = map (fun metric => (metric, [])) metric_keys ->
  fold_left (fun acc name => if obj_has name acc then acc
                             else obj_define name [] acc)
            metric_keys acc
  = map (fun metric => (metric, [])) metric_keys.
Proof. intros [-> | ->]; vm_compute; reflexivity. Qed.

Lemma invert_not_finite_from (by_branch : obj WPPerformanceResults)
    (acc : obj (obj string)) :
  Forall (fun key_val => perf_all (fun v => isFinite v = false) (snd key_val))
         by_branch ->
  acc = map (fun metric => (metric, [])) metric_keys ->
  fold_left
    (fun acc key_val =>
       fold_left (invertEntry w (fst key_val)) (perf_entries (snd key_val)) acc)
    by_branch acc
  = map (fun metric => (metric, [])) metric_keys.
Proof.
  intro H. revert acc. induction H as [| [key r] by_branch Hr _ IH]; intros acc K.
  - exact K.
  - rewrite fold_left_cons. apply IH. cbn [fst snd] in *.
    rewrite fold_invertEntry_not_finite.
    + change (map fst (perf_entries r)) with metric_keys.
      apply empty_rows_defined. now right.
    + unfold perf_all in Hr. now apply Forall_map in Hr.
Qed.

End Rows.

(** X18. The transposed table of a suite has no row when the suite has no
    branch, and otherwise one row for each of the thirteen metrics, in the
    order of the results; a row exists even when it gets no cell.  When no
    value of the suite is finite, the table is thirteen empty rows. *)
Theorem invert_rows (w : collaborators) (by_branch : obj WPPerformanceResults) :
  invert w [] = []
  /\ (by_branch <> [] -> obj_keys (invert w by_branch) = metric_keys)
  /\ (by_branch <> [] ->
      Forall (fun key_val => perf_all (fun v => isFinite v = false) (snd key_val))
             by_branch ->
      invert w by_branch = map (fun metric => (metric, [])) metric_keys).
Proof.
  split; [reflexivity |].
  destruct by_branch as [| [key r] by_branch].
  { split; intro H; congruence. }
  split; intros _.
  - unfold invert. rewrite fold_left_cons. apply obj_keys_invert_from.
    cbn [fst snd]. rewrite obj_keys_fold_invertEntry.
    change (map fst (perf_entries r)) with metric_keys.
    apply metric_keys_defined. now left.
  - intro H. inversion H as [| ? ? Hr Hrest]; subst.
    unfold invert. rewrite fold_left_cons.
    apply invert_not_finite_from; [exact Hrest |].
    cbn [fst snd] in *. rewrite fold_invertEntry_not_finite.
    + change (map fst (perf_entries r)) with metric_keys.
      apply empty_rows_defined. now left.
    + unfold perf_all in Hr. now apply Forall_map in Hr.
Qed.

Lemma invert_rows_witness :
  obj_keys (invert (sample_collaborators "")
              [("trunk", curateResults sample_raw)])
  = metric_keys
  /\ invert (sample_collaborators "")
            [("trunk", curateResults (Raw.make [] [] [] [] []))]
     = map (fun metric => (metric, [])) metric_keys.
Proof.
  destruct (invert_rows (sample_collaborators "")
              [("trunk", curateResults sample_raw)]) as (_ & H & _).
  destruct (invert_rows (sample_collaborators "")
              [("trunk", curateResults (Raw.make [] [] [] [] []))])
    as (_ & _ & K).
  split.
  - apply H. discriminate.
  - apply K; [discriminate |]. repeat constructor.
Defined.
